(** * cordova-plugin-update-checker: the update-check script, embedded and verified

    Shallow embedding of [cordova-plugin-checker.js].

    Strings are sequences of code units; the embedding uses [string], so a
    code unit ranges over 0..255 (the Latin-1 part of UTF-16).  Arrays are
    lists, an absent array element or object field ([undefined]) is [None].
    The script awaits every promise before it goes on, so it is modelled as
    sequential code over an explicit world: a state and error monad whose
    state holds the working directory and the trace of what the script did.

    The file has the embedding first (strings, parser, numbers, comparator,
    world, script), then the definitions the properties are stated with,
    then the properties, component by component. *)

From Stdlib Require Import String Ascii List Bool Arith ZArith QArith Lia.
From Stdlib Require Qcanon.
Import ListNotations.
Open Scope nat_scope.
Open Scope string_scope.

(* ================================================================== *)
(** ** Strings of the runtime *)

Definition nl : ascii := "010"%char.
Definition esc : ascii := "027"%char.

(** White space and line terminators, as used by [String.prototype.trim],
    by [\s] in a regular expression and by the string-to-number conversion:
    TAB, LF, VT, FF, CR, SPACE and NBSP are the ones below 256. *)
Definition is_space (c : ascii) : bool :=
  let n := nat_of_ascii c in
  (n =? 9)%nat || (n =? 10)%nat || (n =? 11)%nat || (n =? 12)%nat
  || (n =? 13)%nat || (n =? 32)%nat || (n =? 160)%nat.

(** A string used as a condition: the empty string is falsy. *)
Definition truthy (s : string) : bool := negb (s =? "").

(** [s.split(sep)] for a separator of one code unit.  The result always has
    at least one element: [''.split(sep)] is [['']]. *)
Fixpoint split (sep : ascii) (s : string) : list string :=
  match s with
  | EmptyString => [""]
  | String c s' =>
      if Ascii.eqb c sep then "" :: split sep s'
      else match split sep s' with
           | seg :: segs => String c seg :: segs
           | [] => [String c ""]
           end
  end.

Fixpoint trimStart (s : string) : string :=
  match s with
  | EmptyString => ""
  | String c s' => if is_space c then trimStart s' else s
  end.

Fixpoint trimEnd (s : string) : string :=
  match s with
  | EmptyString => ""
  | String c s' =>
      match trimEnd s' with
      | EmptyString => if is_space c then "" else String c ""
      | t => String c t
      end
  end.

(** [s.trim()] *)
Definition trim (s : string) : string := trimEnd (trimStart s).

(** [c.toLowerCase()] on one code unit below 256: A-Z and the accented
    capitals 192..222 (except the multiplication sign 215) move up by 32. *)
Definition lower_ascii (c : ascii) : ascii :=
  let n := nat_of_ascii c in
  if ((65 <=? n) && (n <=? 90))%nat
     || ((192 <=? n) && (n <=? 222) && negb (n =? 215))%nat
  then ascii_of_nat (n + 32) else c.

Fixpoint toLowerCase (s : string) : string :=
  match s with
  | EmptyString => ""
  | String c s' => String (lower_ascii c) (toLowerCase s')
  end.

(* ================================================================== *)
(** ** Plugin List Parser *)

Record InstalledPlugin := mkPlugin { id : string; version : string }.

(** [line.replace(/^[>\s]+/, '')]: drop the longest prefix made of ['>']
    and white space. *)
Fixpoint stripMarkers (line : string) : string :=
  match line with
  | EmptyString => ""
  | String c s' =>
      if Ascii.eqb c ">" || is_space c then stripMarkers s' else line
  end.

(** [const [id, version] = cleanLine.split(' ')] followed by the object
    literal [{id: id, version: version || 'unknown'}].  [split] never returns
    an empty array, so [id] is always a string (the [[]] case is dead). *)
Definition parseLine (line : string) : InstalledPlugin :=
  let cleanLine := stripMarkers line in
  let parts := split " " cleanLine in
  let id_ := match nth_error parts 0 with Some s => s | None => "" end in
  let version_ := nth_error parts 1 in
  {| id := id_;
     version := match version_ with
                | Some v => if truthy v then v else "unknown"
                | None => "unknown"
                end |}.

(** [plugin.id && plugin.id !== 'undefined'] *)
Definition keepPlugin (plugin : InstalledPlugin) : bool :=
  truthy (id plugin) && negb (id plugin =? "undefined").

Definition parsePluginList (output : string) : list InstalledPlugin :=
  let lines := filter (fun line => truthy (trim line)) (split nl output) in
  filter keepPlugin (map parseLine lines).

(* ================================================================== *)
(** ** Numbers of the runtime

    A number is an IEEE-754 binary64 value.  Only [<] and [>] are applied to
    numbers by the script, so a finite value is kept as the rational it
    denotes (the two zeros compare equal and are not told apart). *)

Inductive number :=
| NaN
| Infinity (negative : bool)
| Fin (q : Q).

(** [a < b] on numbers: false as soon as one side is [NaN]. *)
Definition num_lt (a b : number) : bool :=
  match a, b with
  | NaN, _ => false
  | _, NaN => false
  | Infinity true, Infinity true => false
  | Infinity true, _ => true
  | _, Infinity true => false
  | Infinity false, _ => false
  | Fin _, Infinity false => true
  | Fin x, Fin y => match (x ?= y)%Q with Lt => true | _ => false end
  end.

(** [a > b] *)
Definition num_gt (a b : number) : bool := num_lt b a.

(** [ToNumber] applied to an array element that may be absent. *)
Definition toNumber (v : option number) : number :=
  match v with Some n => n | None => NaN end.

(** *** Rounding to binary64 (round to nearest, ties to even) *)

Definition round_half_even (n d : Z) : Z :=
  let q := (n / d)%Z in
  let r := (n mod d)%Z in
  match (2 * r ?= d)%Z with
  | Lt => q
  | Gt => (q + 1)%Z
  | Eq => if Z.even q then q else (q + 1)%Z
  end.

(** floor (log2 (p/q)) for positive [p] and [q] *)
Definition ilog2 (p q : Z) : Z :=
  let d := (Z.log2 p - Z.log2 q)%Z in
  if (q * 2 ^ Z.max 0 d <=? p * 2 ^ Z.max 0 (- d))%Z then d else (d - 1)%Z.

(** [m * 2^k] as a reduced fraction *)
Definition dyadic (m k : Z) : Q :=
  if (0 <=? k)%Z then inject_Z (m * 2 ^ k)
  else Qred (Qmake m (Z.to_pos (2 ^ (- k)))).

(** The binary64 value nearest to [p/q], for [0 <= p] and [0 < q]; the sign
    is applied by the caller.  53 bits of precision, least exponent -1074,
    overflow to infinity from 2^1024 on. *)
Definition round64 (negative : bool) (p q : Z) : number :=
  if (p =? 0)%Z then Fin 0
  else
    let k := Z.max (ilog2 p q - 52) (-1074) in
    let mant := round_half_even (p * 2 ^ Z.max 0 (- k)) (q * 2 ^ Z.max 0 k) in
    if (2 ^ 1024 <=? mant * 2 ^ k)%Z then Infinity negative
    else Fin (dyadic (if negative then - mant else mant) k).

(** [m * 10^e] rounded *)
Definition decimal64 (negative : bool) (m e : Z) : number :=
  if (0 <=? e)%Z then round64 negative (m * 10 ^ e) 1
  else round64 negative m (10 ^ (- e)).

(** *** [Number(string)]: the StringToNumber conversion *)

Definition digit_of (base : Z) (c : ascii) : option Z :=
  let n := Z.of_nat (nat_of_ascii c) in
  let v := if ((48 <=? n) && (n <=? 57))%Z then Some (n - 48)%Z
           else if ((97 <=? n) && (n <=? 102))%Z then Some (n - 87)%Z
           else if ((65 <=? n) && (n <=? 70))%Z then Some (n - 55)%Z
           else None in
  match v with
  | Some d => if (d <? base)%Z then Some d else None
  | None => None
  end.

(** Reads the longest run of digits: its value on top of [acc], the number
    of digits read on top of [count], and the rest of the string. *)
Fixpoint scan_digits (base : Z) (s : string) (acc : Z) (count : nat)
  : Z * nat * string :=
  match s with
  | EmptyString => (acc, count, "")
  | String c s' =>
      match digit_of base c with
      | Some d => scan_digits base s' (acc * base + d)%Z (S count)
      | None => (acc, count, s)
      end
  end.

(** [0x..], [0o..], [0b..]: at least one digit, nothing after the digits *)
Definition nonDecimalLiteral (base : Z) (digits : string) : number :=
  match scan_digits base digits 0 0 with
  | (v, S _, EmptyString) => round64 false v 1
  | _ => NaN
  end.

(** ExponentPart, then the end of the string *)
Definition exponentPart (negative : bool) (m e0 : Z) (rest : string) : number :=
  match rest with
  | EmptyString => decimal64 negative m e0
  | String c r =>
      if Ascii.eqb c "e" || Ascii.eqb c "E" then
        let '(eneg, ds) :=
          match r with
          | String "+" r' => (false, r')
          | String "-" r' => (true, r')
          | _ => (false, r)
          end in
        match scan_digits 10 ds 0 0 with
        | (ev, S _, EmptyString) =>
            decimal64 negative m (e0 + (if eneg then - ev else ev))
        | _ => NaN
        end
      else NaN
  end.

(** StrUnsignedDecimalLiteral *)
Definition unsignedDecimalLiteral (negative : bool) (s : string) : number :=
  if s =? "Infinity" then Infinity negative
  else
    let '(ip, n1, r1) := scan_digits 10 s 0 0 in
    match r1 with
    | String "." r =>
        let '(m, n, r2) := scan_digits 10 r ip n1 in
        match n with
        | O => NaN
        | S _ => exponentPart negative m (- Z.of_nat (n - n1)) r2
        end
    | _ =>
        match n1 with
        | O => NaN
        | S _ => exponentPart negative ip 0 r1
        end
    end.

(** The prefix of a NonDecimalIntegerLiteral: its base and its digits *)
Definition radixPrefix (t : string) : option (Z * string) :=
  match t with
  | String c0 (String c1 r) =>
      if Ascii.eqb c0 "0" then
        if Ascii.eqb c1 "x" || Ascii.eqb c1 "X" then Some (16%Z, r)
        else if Ascii.eqb c1 "o" || Ascii.eqb c1 "O" then Some (8%Z, r)
        else if Ascii.eqb c1 "b" || Ascii.eqb c1 "B" then Some (2%Z, r)
        else None
      else None
  | _ => None
  end.

(** White space around the literal is dropped and the empty string is 0;
    a non-decimal literal takes no sign; what is no numeric literal is
    [NaN]. *)
Definition Number (s : string) : number :=
  match trim s with
  | EmptyString => Fin 0
  | String c r =>
      match radixPrefix (String c r) with
      | Some (base, digits) => nonDecimalLiteral base digits
      | None =>
          if Ascii.eqb c "+" then unsignedDecimalLiteral false r
          else if Ascii.eqb c "-" then unsignedDecimalLiteral true r
          else unsignedDecimalLiteral false (String c r)
      end
  end.

(* ================================================================== *)
(** ** Version Comparator *)

(** The [for (let i = 0; i < 3; i++)] loop, entered at index [i] with
    [n] iterations left. *)
Fixpoint compareFrom (currentParts latestParts : list number) (i n : nat) : bool :=
  match n with
  | O => false
  | S n' =>
      let l := toNumber (nth_error latestParts i) in
      let c := toNumber (nth_error currentParts i) in
      if num_gt l c then true
      else if num_lt l c then false
      else compareFrom currentParts latestParts (S i) n'
  end.

Definition compareVersions (current latest : string) : bool :=
  if current =? "unknown" then true
  else
    let currentParts := map Number (split "." current) in
    let latestParts := map Number (split "." latest) in
    compareFrom currentParts latestParts 0 3.

(* ================================================================== *)
(** ** The world the script runs in

    The script talks to the file system, to child processes, to the
    console and to the operator.  What it does is recorded, in order, in a
    trace; what it is told comes from the [Host].  A child process and the
    operator may answer differently each time, so their answers depend on
    everything that happened before (the trace so far).  Every child process
    is taken to end and every prompt to be answered. *)

Inductive Event :=
| EvLog (text : string)        (* console.log *)
| EvError (text : string)      (* console.error *)
| EvChdir (dir : string)       (* process.chdir *)
| EvExec (command : string)    (* a child process started by exec *)
| EvQuestion (query : string)  (* rl.question *)
| EvClose                      (* rl.close *)
| EvExit (code : Z).           (* process.exit *)

Record Host := mkHost {
  (** [process.argv[2]] *)
  argv2 : option string;
  (** [path.resolve(p)], from the working directory and [p] *)
  path_resolve : string -> string -> string;
  (** [path.join(a, b)] *)
  path_join : string -> string -> string;
  (** [fs.existsSync(p)]; the script asks before it starts any child
      process *)
  fs_exists : string -> bool;
  (** how a child process ends: its standard output, or the message of
      the error [exec] rejects with *)
  exec_result : list Event -> string -> string + string;
  (** the line the operator types at a prompt *)
  answer : list Event -> string -> string
}.

Record World := mkWorld { cwd : string; trace : list Event }.

(** The world once [events] have happened in it *)
Definition record (w : World) (events : list Event) : World :=
  {| cwd := cwd w; trace := trace w ++ events |}.

(** A JavaScript [Error] *)
Record Error := mkError { message : string }.

(** [`${error}`] *)
Definition errorToString (e : Error) : string := "Error: " ++ message e.

(** How a piece of code ends: with a value, with a thrown error (a rejected
    promise), or with the process gone. *)
Inductive Outcome (A : Type) :=
| Return (a : A)
| Throw (e : Error)
| Exit (code : Z).
Arguments Return {A} a.
Arguments Throw {A} e.
Arguments Exit {A} code.

Definition M (A : Type) : Type := World -> Outcome A * World.

Definition ret {A} (a : A) : M A := fun w => (Return a, w).

Definition bind {A B} (m : M A) (k : A -> M B) : M B :=
  fun w =>
    match m w with
    | (Return a, w') => k a w'
    | (Throw e, w') => (Throw e, w')
    | (Exit c, w') => (Exit c, w')
    end.

Definition throw {A} (e : Error) : M A := fun w => (Throw e, w).

(** [try { body } catch (error) { handler }] *)
Definition try_catch {A} (body : M A) (handler : Error -> M A) : M A :=
  fun w =>
    match body w with
    | (Throw e, w') => handler e w'
    | r => r
    end.

Declare Scope js_scope.
Delimit Scope js_scope with js.
Notation "x <- m ;; k" := (bind m (fun x => k))
  (at level 61, m at next level, right associativity) : js_scope.
Notation "m ;; k" := (bind m (fun _ => k))
  (at level 61, right associativity) : js_scope.
Open Scope js_scope.

Definition emit (e : Event) : M unit :=
  fun w => (Return tt, record w [e]).

Definition console_log (text : string) : M unit := emit (EvLog text).
Definition console_error (text : string) : M unit := emit (EvError text).
Definition rl_close : M unit := emit EvClose.

Definition process_cwd : M string := fun w => (Return (cwd w), w).

(** [process.chdir(dir)].  The script calls it once, on a directory in which
    [fs.existsSync] has just found [config.xml]; the change is taken to
    succeed. *)
Definition process_chdir (dir : string) : M unit :=
  fun w => (Return tt, {| cwd := dir; trace := trace w ++ [EvChdir dir] |}).

Definition process_exit {A} (code : Z) : M A :=
  fun w => (Exit code, record w [EvExit code]).

(** Console colors *)
Definition green : string := String esc "[32m".
Definition reset : string := String esc "[0m".
Definition yellow : string := String esc "[33m".
Definition red : string := String esc "[31m".

(** [`${v}`] for a field that may be absent *)
Definition showField (v : option string) : string :=
  match v with Some s => s | None => "undefined" end.

Record UpdateResult := mkResult {
  plugin : string;
  currentVersion : string;
  latestVersion : option string;
  hasUpdate : option bool;
  error : option string
}.

Section Script.

Variable host : Host.

Definition existsSync (p : string) : M bool :=
  fun w => (Return (fs_exists host p), w).

(** [await execPromise(command)], giving the standard output *)
Definition execPromise (command : string) : M string :=
  fun w =>
    match exec_result host (trace w) command with
    | inl stdout => (Return stdout, record w [EvExec command])
    | inr msg => (Throw (mkError msg), record w [EvExec command])
    end.

(** [await question(query)], for a prompt the operator answers: the answer
    is the line typed.  A prompt that is never answered, or one put when the
    standard input is already at its end, is no run of this model. *)
Definition question (query : string) : M string :=
  fun w =>
    (Return (answer host (trace w) query), record w [EvQuestion query]).

Definition updatePlugin (pluginId : string) : M bool :=
  try_catch
    (console_log (String nl "Updating " ++ pluginId ++ "...") ;;
     _ <- execPromise ("cordova plugin remove " ++ pluginId ++ " --force") ;;
     _ <- execPromise ("cordova plugin add " ++ pluginId) ;;
     console_log (green ++ "Successfully updated " ++ pluginId ++ reset) ;;
     ret true)
    (fun error =>
       console_error (red ++ "Failed to update " ++ pluginId ++ ": "
                      ++ errorToString error ++ reset) ;;
       ret false).

(** The body of [for (const plugin of installedPlugins)]: one plugin, then
    the rest, with [updateResults] the array the loop pushes to.  The second
    argument of [console.error] is the caught error; the stack trace the
    console adds to it is left out. *)
Fixpoint checkEach (installedPlugins : list InstalledPlugin)
    (updateResults : list UpdateResult) : M (list UpdateResult) :=
  match installedPlugins with
  | [] => ret updateResults
  | plugin_ :: rest =>
      updateResults' <-
        try_catch
          (if negb (truthy (id plugin_)) || (id plugin_ =? "undefined")
           then ret updateResults
           else
             npmInfo <- execPromise ("npm view " ++ id plugin_ ++ " version") ;;
             let latest := trim npmInfo in
             let current := version plugin_ in
             let update := compareVersions current latest in
             ret (updateResults ++
                  [ {| plugin := id plugin_;
                       currentVersion := current;
                       latestVersion := Some latest;
                       hasUpdate := Some update;
                       error := None |} ])%list)
          (fun err =>
             console_error ("Error checking plugin " ++ id plugin_ ++ ": "
                            ++ errorToString err) ;;
             ret (updateResults ++
                  [ {| plugin := id plugin_;
                       currentVersion := version plugin_;
                       latestVersion := None;
                       hasUpdate := None;
                       error := Some "Failed to check for updates" |} ])%list) ;;
      checkEach rest updateResults'
  end.

Definition checkPluginUpdates (projectPath : string) : M (list UpdateResult) :=
  try_catch
    (pathExists <- existsSync projectPath ;;
     if negb pathExists
     then throw (mkError ("Project path does not exist: " ++ projectPath))
     else
       let configPath := path_join host projectPath "config.xml" in
       configExists <- existsSync configPath ;;
       if negb configExists
       then throw (mkError ("Not a Cordova project: " ++ projectPath
                            ++ " (config.xml not found)"))
       else
         originalDir <- process_cwd ;;
         process_chdir projectPath ;;
         pluginListOutput <- execPromise "cordova plugin list" ;;
         let installedPlugins := parsePluginList pluginListOutput in
         checkEach installedPlugins [])
    (fun err =>
       throw (mkError ("Failed to check plugin updates: " ++ message err))).

(** [result.error] and [result.hasUpdate] used as conditions *)
Definition hasError (result : UpdateResult) : bool :=
  match error result with Some e => truthy e | None => false end.

Definition wantsUpdate (result : UpdateResult) : bool :=
  match hasUpdate result with Some b => b | None => false end.

(** [results.forEach(...)]: one report per result, collecting in
    [pluginsToUpdate] the results that have an update. *)
Fixpoint report (results : list UpdateResult)
    (pluginsToUpdate : list UpdateResult) : M (list UpdateResult) :=
  match results with
  | [] => ret pluginsToUpdate
  | result :: rest =>
      if hasError result then
        console_log (red ++ plugin result ++ ": " ++ showField (error result)
                     ++ reset) ;;
        report rest pluginsToUpdate
      else
        let updateStatus :=
          if wantsUpdate result
          then green ++ "Yes - update available!" ++ reset
          else "No" in
        console_log
          (String nl "    Plugin: " ++ plugin result
           ++ String nl "    Current Version: " ++ currentVersion result
           ++ String nl "    Latest Version: " ++ showField (latestVersion result)
           ++ String nl "    Update Available: " ++ updateStatus
           ++ String nl "                ") ;;
        if wantsUpdate result
        then report rest (pluginsToUpdate ++ [result])%list
        else report rest pluginsToUpdate
  end.

(** [for (const plugin of pluginsToUpdate)]: the interactive updater *)
Fixpoint askEach (pluginsToUpdate : list UpdateResult) : M unit :=
  match pluginsToUpdate with
  | [] => ret tt
  | plugin_ :: rest =>
      answer_ <- question
        (String nl "Do you want to update " ++ plugin plugin_
         ++ " from " ++ currentVersion plugin_
         ++ " to " ++ showField (latestVersion plugin_) ++ "? (y/n): ") ;;
      (if toLowerCase answer_ =? "y"
       then _ <- updatePlugin (plugin plugin_) ;; ret tt
       else ret tt) ;;
      askEach rest
  end.

Definition checkUpdates : M unit :=
  try_catch
    (let projectPath :=
       match argv2 host with
       | Some p => if truthy p then p else "."
       | None => "."
       end in
     here <- process_cwd ;;
     let absolutePath := path_resolve host here projectPath in
     console_log ("Checking plugins in project: " ++ absolutePath) ;;
     results <- checkPluginUpdates absolutePath ;;
     console_log (String nl "Plugin Update Check Results:") ;;
     pluginsToUpdate <- report results [] ;;
     (if (0 <? length pluginsToUpdate)%nat
      then askEach pluginsToUpdate
      else console_log (String nl "All plugins are up to date!")) ;;
     rl_close)
    (fun err =>
       console_error (red ++ "Failed to check plugin updates: "
                      ++ errorToString err ++ reset) ;;
       rl_close ;;
       process_exit 1).

End Script.

(** The exit status of the process once [checkUpdates()] has run: the one
    given to [process.exit], 0 when the script runs to its end, 1 for a
    rejection nobody handles. *)
Definition exitStatus {A} (o : Outcome A) : Z :=
  match o with
  | Exit code => code
  | Return _ => 0
  | Throw _ => 1
  end.

(* ================================================================== *)
(** ** Definitions used to state the properties *)

(** A line made of white space only (the empty line included) *)
Fixpoint blank (line : string) : bool :=
  match line with
  | EmptyString => true
  | String c s' => is_space c && blank s'
  end.

(** The text before the first [sep] (all of it when there is none) *)
Fixpoint upTo (sep : ascii) (s : string) : string :=
  match s with
  | EmptyString => ""
  | String c s' => if Ascii.eqb c sep then "" else String c (upTo sep s')
  end.

(** The text after the first [sep], when there is one *)
Fixpoint after (sep : ascii) (s : string) : option string :=
  match s with
  | EmptyString => None
  | String c s' => if Ascii.eqb c sep then Some s' else after sep s'
  end.

(** The parser's step on a cleaned line as section 4.1 of the specification
    words it: the line is cut in two at its first space, the [id] before it
    and the [version] after it, and the version is ["unknown"] when the line
    has no space. *)
Definition pairAtFirstSpace (cleanLine : string) : InstalledPlugin :=
  {| id := upTo " " cleanLine;
     version := match after " " cleanLine with
                | Some v => v
                | None => "unknown"
                end |}.

(** Section 4.1 of the specification, step by step. *)
Definition parsePluginList_spec (text : string) : list InstalledPlugin :=
  let lines := filter (fun line => negb (blank line)) (split nl text) in
  let cleaned := map stripMarkers lines in
  filter keepPlugin (map pairAtFirstSpace cleaned).

(** What the code takes from a cleaned line: the text before the first
    space as [id], and as [version] the text between the first and the
    second space, replaced by ["unknown"] when it is absent or empty. *)
Definition idAndSecondField (cleanLine : string) : InstalledPlugin :=
  {| id := upTo " " cleanLine;
     version := match after " " cleanLine with
                | Some r => if upTo " " r =? "" then "unknown" else upTo " " r
                | None => "unknown"
                end |}.

(** The [i]-th component of a version, as the comparator sees it:
    [v.split('.').map(Number)[i]], [NaN] when the segment is missing. *)
Definition component (v : string) (i : nat) : number :=
  toNumber (nth_error (map Number (split "." v)) i).

(** Neither [latest > current] nor [latest < current] at component [i] *)
Definition undecided (current latest : string) (i : nat) : Prop :=
  num_gt (component latest i) (component current i) = false /\
  num_lt (component latest i) (component current i) = false.

(** The integer a string of decimal digits denotes, on top of [acc];
    nothing when a character is no decimal digit *)
Fixpoint decimalValue (s : string) (acc : Z) : option Z :=
  match s with
  | EmptyString => Some acc
  | String c s' =>
      match digit_of 10 c with
      | Some d => decimalValue s' (acc * 10 + d)%Z
      | None => None
      end
  end.

(** The integer a non-empty string of decimal digits denotes *)
Definition decimal (s : string) : option Z :=
  match s with
  | EmptyString => None
  | _ => decimalValue s 0
  end.

(** *** Commands, messages and records of the script, by name *)

Definition removeCommand (pluginId : string) : string :=
  "cordova plugin remove " ++ pluginId ++ " --force".

Definition addCommand (pluginId : string) : string :=
  "cordova plugin add " ++ pluginId.

Definition lookupCommand (p : InstalledPlugin) : string :=
  "npm view " ++ id p ++ " version".

Definition updatingMessage (pluginId : string) : string :=
  String nl "Updating " ++ pluginId ++ "...".

Definition updatedMessage (pluginId : string) : string :=
  green ++ "Successfully updated " ++ pluginId ++ reset.

Definition updateFailedMessage (pluginId msg : string) : string :=
  red ++ "Failed to update " ++ pluginId ++ ": Error: " ++ msg ++ reset.

Definition lookupFailedMessage (p : InstalledPlugin) (msg : string) : string :=
  "Error checking plugin " ++ id p ++ ": Error: " ++ msg.

(** The question put to the operator for one outdated plugin *)
Definition updateQuery (r : UpdateResult) : string :=
  String nl "Do you want to update " ++ plugin r
  ++ " from " ++ currentVersion r
  ++ " to " ++ showField (latestVersion r) ++ "? (y/n): ".

(** The result pushed for a plugin whose registry lookup printed [npmInfo] *)
Definition lookedUp (p : InstalledPlugin) (npmInfo : string) : UpdateResult :=
  {| plugin := id p;
     currentVersion := version p;
     latestVersion := Some (trim npmInfo);
     hasUpdate := Some (compareVersions (version p) (trim npmInfo));
     error := None |}.

(** The result pushed for a plugin whose registry lookup failed *)
Definition lookupFailed (p : InstalledPlugin) : UpdateResult :=
  {| plugin := id p;
     currentVersion := version p;
     latestVersion := None;
     hasUpdate := None;
     error := Some "Failed to check for updates" |}.

(** The two fatal errors of the preconditions, as [checkPluginUpdates]
    rethrows them *)
Definition noPathMessage (projectPath : string) : string :=
  "Failed to check plugin updates: Project path does not exist: "
  ++ projectPath.

Definition noManifestMessage (projectPath : string) : string :=
  "Failed to check plugin updates: Not a Cordova project: " ++ projectPath
  ++ " (config.xml not found)".

(** What the session prints for a fatal error with message [msg] *)
Definition fatalMessage (msg : string) : string :=
  red ++ "Failed to check plugin updates: Error: " ++ msg ++ reset.

(** The path the session checks: [path.resolve(process.argv[2] || '.')] *)
Definition targetPath (host : Host) (w : World) : string :=
  path_resolve host (cwd w)
    match argv2 host with
    | Some p => if truthy p then p else "."
    | None => "."
    end.

(** The world when the session calls [checkPluginUpdates]: its first line
    is printed. *)
Definition started (host : Host) (w : World) : World :=
  record w [EvLog ("Checking plugins in project: " ++ targetPath host w)].

(** The results the session asks about: no error, and an update *)
Definition eligible (result : UpdateResult) : bool :=
  negb (hasError result) && wantsUpdate result.

(** The world after [process.chdir(dir)] *)
Definition moved (w : World) (dir : string) : World :=
  {| cwd := dir; trace := trace w ++ [EvChdir dir] |}.

(** The queries of the prompts in a trace, in order *)
Fixpoint questions (events : list Event) : list string :=
  match events with
  | [] => []
  | EvQuestion q :: rest => q :: questions rest
  | _ :: rest => questions rest
  end.

(** The commands of the child processes in a trace, in order *)
Fixpoint commands (events : list Event) : list string :=
  match events with
  | [] => []
  | EvExec c :: rest => c :: commands rest
  | _ :: rest => commands rest
  end.

(** The directories of the [chdir] calls in a trace, in order *)
Fixpoint chdirs (events : list Event) : list string :=
  match events with
  | [] => []
  | EvChdir d :: rest => d :: chdirs rest
  | _ :: rest => chdirs rest
  end.

(** What a stretch of the run leaves untouched: the working directory is
    the same, and the trace has grown by events among which there is no
    [chdir]. *)
Definition stays (w w' : World) : Prop :=
  cwd w' = cwd w /\
  exists more, trace w' = (trace w ++ more)%list /\ chdirs more = [].

(** One update of [pluginId], from world [w] to world [w'], answering [ok]:
    the remove fails; or the remove succeeds and the add fails; or both
    succeed. *)
Inductive Updated (host : Host) (w : World) (pluginId : string)
  : bool -> World -> Prop :=
| Updated_remove_failed msg :
    exec_result host (trace w ++ [EvLog (updatingMessage pluginId)])
      (removeCommand pluginId) = inr msg ->
    Updated host w pluginId false
      (record w [EvLog (updatingMessage pluginId);
                 EvExec (removeCommand pluginId);
                 EvError (updateFailedMessage pluginId msg)])
| Updated_add_failed out msg :
    exec_result host (trace w ++ [EvLog (updatingMessage pluginId)])
      (removeCommand pluginId) = inl out ->
    exec_result host
      (trace w ++ [EvLog (updatingMessage pluginId);
                   EvExec (removeCommand pluginId)])
      (addCommand pluginId) = inr msg ->
    Updated host w pluginId false
      (record w [EvLog (updatingMessage pluginId);
                 EvExec (removeCommand pluginId);
                 EvExec (addCommand pluginId);
                 EvError (updateFailedMessage pluginId msg)])
| Updated_done out out' :
    exec_result host (trace w ++ [EvLog (updatingMessage pluginId)])
      (removeCommand pluginId) = inl out ->
    exec_result host
      (trace w ++ [EvLog (updatingMessage pluginId);
                   EvExec (removeCommand pluginId)])
      (addCommand pluginId) = inl out' ->
    Updated host w pluginId true
      (record w [EvLog (updatingMessage pluginId);
                 EvExec (removeCommand pluginId);
                 EvExec (addCommand pluginId);
                 EvLog (updatedMessage pluginId)]).

(** The interactive updater over the outdated plugins, from world [w] to
    world [w']: each plugin is asked about; on "y" or "Y" it is updated,
    on any other answer nothing more happens for it. *)
Inductive Asked (host : Host) : World -> list UpdateResult -> World -> Prop :=
| Asked_nil w : Asked host w [] w
| Asked_skip w r rest w' :
    answer host (trace w) (updateQuery r) <> "y" ->
    answer host (trace w) (updateQuery r) <> "Y" ->
    Asked host (record w [EvQuestion (updateQuery r)]) rest w' ->
    Asked host w (r :: rest) w'
| Asked_update w r rest ok w1 w' :
    answer host (trace w) (updateQuery r) = "y"
    \/ answer host (trace w) (updateQuery r) = "Y" ->
    Updated host (record w [EvQuestion (updateQuery r)]) (plugin r) ok w1 ->
    Asked host w1 rest w' ->
    Asked host w (r :: rest) w'.

(** The registry lookups over the installed plugins, from world [w] to world
    [w'], with the results pushed: one per plugin, in order, whether its
    lookup succeeded or failed. *)
Inductive Checked (host : Host)
  : World -> list InstalledPlugin -> list UpdateResult -> World -> Prop :=
| Checked_nil w : Checked host w [] [] w
| Checked_found w p rest npmInfo results w' :
    exec_result host (trace w) (lookupCommand p) = inl npmInfo ->
    Checked host (record w [EvExec (lookupCommand p)]) rest results w' ->
    Checked host w (p :: rest) (lookedUp p npmInfo :: results) w'
| Checked_failed w p rest msg results w' :
    exec_result host (trace w) (lookupCommand p) = inr msg ->
    Checked host
      (record w [EvExec (lookupCommand p);
                 EvError (lookupFailedMessage p msg)]) rest results w' ->
    Checked host w (p :: rest) (lookupFailed p :: results) w'.

(** The version string [major.minor.patch] *)
Definition dotted (major minor patch : string) : string :=
  major ++ "." ++ minor ++ "." ++ patch.

(** [(x, y, z)] comes strictly before [(x', y', z')] in the order that
    looks at major, then minor, then patch *)
Definition tripleBefore (x y z x' y' z' : Z) : bool :=
  (x <? x')%Z
  || ((x =? x')%Z && ((y <? y')%Z || ((y =? y')%Z && (z <? z')%Z))).

(** *** Hosts and worlds for examples *)

(** A host whose project is at [/app] when [manifest] and [project] say so,
    with two plugins installed; the registry knows the first plugin and fails
    on the second; removing a plugin works and adding it fails; the operator
    types [reply] at every prompt. *)
Definition exampleHost (project manifest : bool) (reply : string) : Host :=
  {| argv2 := Some "/app";
     path_resolve := fun here p =>
       match p with
       | String "/" _ => p
       | _ => here ++ "/" ++ p
       end;
     path_join := fun a b => a ++ "/" ++ b;
     fs_exists := fun p =>
       (project && (p =? "/app"))
       || (project && manifest && (p =? "/app/config.xml"));
     exec_result := fun _ command =>
       if command =? "cordova plugin list"
       then inl ("cordova-plugin-device 2.0.3 Device"
                 ++ String nl "> cordova-plugin-camera 6.0.0")
       else if command =? "npm view cordova-plugin-device version"
       then inl ("2.1.0" ++ String nl "")
       else if command =? "cordova plugin remove cordova-plugin-device --force"
       then inl ""
       else inr ("Command failed: " ++ command);
     answer := fun _ _ => reply |}.

Definition exampleWorld : World := {| cwd := "/home"; trace := [] |}.

(** A host on which every command fails: nothing is installed.  The
    session is started without an argument, in the directory to check. *)
Definition offlineHost : Host :=
  {| argv2 := None;
     path_resolve := fun here p =>
       match p with
       | "." => here
       | String "/" _ => p
       | _ => here ++ "/" ++ p
       end;
     path_join := fun a b => a ++ "/" ++ b;
     fs_exists := fun _ => true;
     exec_result := fun _ command => inr ("Command failed: " ++ command);
     answer := fun _ _ => "" |}.

(** A host whose one plugin is at the version the registry has. *)
Definition currentHost : Host :=
  {| argv2 := Some "/app";
     path_resolve := fun _ p => p;
     path_join := fun a b => a ++ "/" ++ b;
     fs_exists := fun _ => true;
     exec_result := fun _ command =>
       if command =? "cordova plugin list"
       then inl ("cordova-plugin-device 2.0.3 Device" ++ String nl "")
       else if command =? "npm view cordova-plugin-device version"
       then inl ("2.0.3" ++ String nl "")
       else inr ("Command failed: " ++ command);
     answer := fun _ _ => "y" |}.

(** *** More definitions to state properties with *)

(** Whether the code unit [c] occurs in [s] *)
Fixpoint occurs (c : ascii) (s : string) : bool :=
  match s with
  | EmptyString => false
  | String c' s' => Ascii.eqb c' c || occurs c s'
  end.

(** ['>'] or white space: what the parser strips from the start of a line *)
Definition isMarker (c : ascii) : bool := Ascii.eqb c ">" || is_space c.

Fixpoint allMarkers (s : string) : bool :=
  match s with
  | EmptyString => true
  | String c s' => isMarker c && allMarkers s'
  end.

(** A line of the listing as the package manager prints it: markers, the
    id, a space, the version, and maybe more after another space. *)
Definition listedLine (marker id_ version_ tail : string) : string :=
  marker ++ id_ ++ " " ++ version_ ++ tail.

(** The parts of a line of the listing are well formed: the marker is made
    of markers; the id starts with something else, is not ["undefined"] and
    has no space; the version is not empty and has no space; the tail is
    empty or starts with a space; and the line has no newline. *)
Definition wellFormedEntry (marker id_ version_ tail : string) : bool :=
  allMarkers marker && negb (occurs nl marker)
  && match id_ with String c _ => negb (isMarker c) | EmptyString => false end
  && negb (occurs " " id_) && negb (occurs nl id_)
  && negb (id_ =? "undefined")
  && truthy version_ && negb (occurs " " version_) && negb (occurs nl version_)
  && match tail with String c _ => Ascii.eqb c " " | EmptyString => true end
  && negb (occurs nl tail).

(** [v] is a well-formed version: three strings of decimal digits joined
    by dots, denoting the integers [x], [y] and [z], each below 2^53. *)
Definition versionOf (v : string) (x y z : Z) : Prop :=
  exists a b c,
    v = dotted a b c /\
    decimal a = Some x /\ decimal b = Some y /\ decimal c = Some z /\
    (Z.max x (Z.max y z) < 2 ^ 53)%Z.

(** The lines the session prints around the report *)
Definition reportHeader : string := String nl "Plugin Update Check Results:".

Definition allUpToDate : string := String nl "All plugins are up to date!".

(** What is left of [s] once its leading code units that satisfy [drop]
    are taken away *)
Fixpoint dropLeading (drop : ascii -> bool) (s : string) : string :=
  match s with
  | EmptyString => ""
  | String c s' => if drop c then dropLeading drop s' else String c s'
  end.

(** The segments [segs] written one after the other with [sep] between
    them *)
Fixpoint joinWith (sep : ascii) (segs : list string) : string :=
  match segs with
  | [] => ""
  | seg :: rest =>
      match rest with
      | [] => seg
      | _ :: _ => seg ++ String sep (joinWith sep rest)
      end
  end.

(** A record the parser may return: its id is neither empty nor the
    word ["undefined"]. *)
Definition validId (p : InstalledPlugin) : bool :=
  negb (id p =? "") && negb (id p =? "undefined").

(* ================================================================== *)
(** ** Strings: splitting and trimming *)

Lemma split_cons (sep : ascii) (s : string) :
  exists seg segs, split sep s = seg :: segs.
Proof.
  destruct s as [|c s]; simpl.
  - now exists "", [].
  - destruct (Ascii.eqb c sep).
    + now exists "", (split sep s).
    + destruct (split sep s) as [|seg segs].
      * now exists (String c ""), [].
      * now exists (String c seg), segs.
Qed.

Lemma split_upTo_after (sep : ascii) (s : string) :
  split sep s =
  upTo sep s :: match after sep s with Some r => split sep r | None => [] end.
Proof.
  induction s as [|c s IH]; simpl.
  - reflexivity.
  - destruct (Ascii.eqb c sep).
    + destruct (split_cons sep s) as (seg & segs & E). now rewrite E.
    + now rewrite IH.
Qed.

Lemma split_app (sep : ascii) (a b : string) :
  split sep (a ++ String sep b) = (split sep a ++ split sep b)%list.
Proof.
  induction a as [|c a IH]; simpl.
  - now rewrite Ascii.eqb_refl.
  - destruct (Ascii.eqb c sep).
    + now rewrite IH.
    + rewrite IH. destruct (split_cons sep a) as (seg & segs & E).
      now rewrite E.
Qed.

Lemma trimStart_blank (s : string) : blank s = true -> trimStart s = "".
Proof.
  induction s as [|c s IH]; simpl; [reflexivity|].
  destruct (is_space c); simpl; [exact IH | discriminate].
Qed.

Lemma trimEnd_cons_nonspace (c : ascii) (s : string) :
  is_space c = false -> trimEnd (String c s) <> "".
Proof.
  intros H. simpl. destruct (trimEnd s); [rewrite H|]; discriminate.
Qed.

Lemma trim_empty_iff_blank (s : string) : trim s = "" <-> blank s = true.
Proof.
  unfold trim. induction s as [|c s IH].
  - simpl. tauto.
  - cbn [trimStart blank]. destruct (is_space c) eqn:Hc.
    + simpl. exact IH.
    + simpl andb. split; [|discriminate].
      intros H. now apply trimEnd_cons_nonspace in H.
Qed.

Lemma truthy_trim (s : string) : truthy (trim s) = negb (blank s).
Proof.
  unfold truthy. destruct (blank s) eqn:B.
  - apply trim_empty_iff_blank in B. now rewrite B.
  - destruct (trim s =? "") eqn:E; [|reflexivity].
    apply String.eqb_eq in E. apply trim_empty_iff_blank in E. congruence.
Qed.

Lemma stripMarkers_blank (s : string) : blank s = true -> stripMarkers s = "".
Proof.
  induction s as [|c s IH]; simpl; [reflexivity|].
  destruct (is_space c); simpl; [|discriminate].
  rewrite orb_true_r. exact IH.
Qed.

(** *** One line of the listing *)

Lemma parseLine_fields (line : string) :
  parseLine line = idAndSecondField (stripMarkers line).
Proof.
  unfold parseLine, idAndSecondField.
  rewrite (split_upTo_after " " (stripMarkers line)). cbn [nth_error].
  f_equal.
  destruct (after " " (stripMarkers line)) as [r|]; [|reflexivity].
  rewrite (split_upTo_after " " r). cbn [nth_error]. unfold truthy.
  now destruct (upTo " " r =? "").
Qed.

Lemma parseLine_blank (line : string) :
  blank line = true -> keepPlugin (parseLine line) = false.
Proof.
  intros B. unfold parseLine. now rewrite (stripMarkers_blank _ B).
Qed.

Lemma filter_filter_absorb {A} (f g : A -> bool) (l : list A) :
  (forall x, f x = false -> g x = false) ->
  filter g (filter f l) = filter g l.
Proof.
  intros H. induction l as [|x l IH]; simpl; [reflexivity|].
  destruct (f x) eqn:F; simpl.
  - now rewrite IH.
  - now rewrite (H x F).
Qed.

Lemma filter_map_comm {A B} (f : A -> B) (g : B -> bool) (l : list A) :
  filter g (map f l) = map f (filter (fun x => g (f x)) l).
Proof.
  induction l as [|x l IH]; simpl; [reflexivity|].
  destruct (g (f x)); simpl; now rewrite IH.
Qed.

(** The first filter of the parser is subsumed by the second one: a blank
    line gives a record with an empty [id]. *)
Lemma parsePluginList_lines (output : string) :
  parsePluginList output = filter keepPlugin (map parseLine (split nl output)).
Proof.
  unfold parsePluginList.
  rewrite !filter_map_comm. f_equal.
  apply filter_filter_absorb. intros line H.
  rewrite truthy_trim in H. apply negb_false_iff in H.
  now apply parseLine_blank.
Qed.

(* ================================================================== *)
(** ** Plugin List Parser: properties *)

Lemma keepPlugin_spec (p : InstalledPlugin) :
  keepPlugin p = true <-> id p <> "" /\ id p <> "undefined".
Proof.
  unfold keepPlugin, truthy.
  rewrite andb_true_iff, !negb_true_iff, !String.eqb_neq. tauto.
Qed.

Lemma parsePluginList_app (a b : string) :
  parsePluginList (a ++ String nl b) =
  (parsePluginList a ++ parsePluginList b)%list.
Proof.
  rewrite !parsePluginList_lines, split_app, map_app. apply filter_app.
Qed.

(** The listing of section 8 of the specification: blank lines and
    markers go, a line with an id only has the version ["unknown"], and a
    line whose id is ["undefined"] is left out. *)
Example parsePluginList_example :
  parsePluginList
    (String nl "> cordova-plugin-a 1.0.0"
     ++ String nl "   "
     ++ String nl "cordova-plugin-b"
     ++ String nl "undefined 2.0.0"
     ++ String nl "")
  = [ {| id := "cordova-plugin-a"; version := "1.0.0" |};
      {| id := "cordova-plugin-b"; version := "unknown" |} ].
Proof. vm_compute. reflexivity. Qed.

(** Two spaces in a row, or a space at the end, leave the version empty,
    and an empty version is ["unknown"]. *)
Example parsePluginList_empty_version :
  parsePluginList "cordova-plugin-a  1.0.0"
    = [ {| id := "cordova-plugin-a"; version := "unknown" |} ] /\
  parsePluginList "cordova-plugin-a "
    = [ {| id := "cordova-plugin-a"; version := "unknown" |} ].
Proof. split; vm_compute; reflexivity. Qed.

(** C4, as the specification words it, fails on the code: a line of the
    listing with a third field (the plugin's name, as the package manager
    prints it) has its [version] cut at the second space, where cutting the
    line in two at its first space keeps the rest of the line. *)
Lemma parsePluginList_first_space_counterexample :
  parsePluginList "cordova-plugin-device 2.0.3 Device"
    = [ {| id := "cordova-plugin-device"; version := "2.0.3" |} ] /\
  parsePluginList_spec "cordova-plugin-device 2.0.3 Device"
    = [ {| id := "cordova-plugin-device"; version := "2.0.3 Device" |} ] /\
  parsePluginList "cordova-plugin-device 2.0.3 Device"
    <> parsePluginList_spec "cordova-plugin-device 2.0.3 Device".
Proof.
  repeat split; try reflexivity. vm_compute. discriminate.
Qed.

Lemma occurs_split (sep : ascii) (s : string) :
  Forall (fun seg => occurs sep seg = false) (split sep s).
Proof.
  induction s as [|c s IH]; simpl.
  - now constructor.
  - destruct (Ascii.eqb c sep) eqn:E.
    + now constructor.
    + destruct (split sep s) as [|seg segs]; inversion IH; subst;
        constructor; simpl; try rewrite E; auto.
Qed.

(** Splitting loses nothing: the segments joined by the separator are the
    string again. *)
Lemma joinWith_split (sep : ascii) (s : string) :
  joinWith sep (split sep s) = s.
Proof.
  induction s as [|c s IH]; [reflexivity|].
  cbn [split]. destruct (Ascii.eqb_spec c sep) as [->|Hne].
  - destruct (split_cons sep s) as (seg & segs & E).
    rewrite E in IH |- *. cbn [joinWith] in IH |- *.
    cbn [append]. now rewrite IH.
  - destruct (split sep s) as [|seg segs]; [cbn in IH |- *; now rewrite <- IH|].
    cbn [joinWith] in IH |- *. destruct segs as [|seg' segs].
    + now rewrite IH.
    + cbn [append]. now rewrite IH.
Qed.

Lemma stripMarkers_dropLeading (line : string) :
  stripMarkers line = dropLeading isMarker line.
Proof.
  induction line as [|c line IH]; [reflexivity|].
  cbn [stripMarkers dropLeading]. unfold isMarker at 1.
  now destruct (Ascii.eqb c ">" || is_space c).
Qed.

Lemma keepPlugin_validId (p : InstalledPlugin) : keepPlugin p = validId p.
Proof. reflexivity. Qed.

(** What [dropLeading] leaves: the line is a run of dropped code units
    followed by the result, and the result does not start with one. *)
Lemma dropLeading_spec (line : string) :
  exists prefix,
    line = prefix ++ dropLeading isMarker line /\
    allMarkers prefix = true /\
    match dropLeading isMarker line with
    | EmptyString => True
    | String c _ => isMarker c = false
    end.
Proof.
  induction line as [|c line (prefix & E & A & H)].
  - now exists "".
  - cbn [dropLeading]. destruct (isMarker c) eqn:M.
    + exists (String c prefix). cbn [append allMarkers]. rewrite M, A.
      split; [now rewrite <- E|]. split; [reflexivity | exact H].
    + exists "". split; [reflexivity|]. split; [reflexivity | exact M].
Qed.

(** C4 (amended): for every input text, [parsePluginList] splits it on
    newlines, discards the blank and white-space-only lines, strips the
    leading ['>'] and white-space characters of each remaining line (the
    line is that run of markers followed by the cleaned line, which starts
    with no marker), and takes from each cleaned line the text before its
    first space as [id] and the text between its first and its second space
    as [version], the version being ["unknown"] when that text is absent (no
    space) or empty; records with an empty or ["undefined"] id are dropped.
    For the empty input the result is the empty sequence.  The lines are
    the text cut at its newlines: none holds a newline, and joined by
    newlines they are the text.  A marked line with a third field shows the
    steps at work. *)
Theorem parsePluginList_fields :
  (forall text : string,
     parsePluginList text =
     filter (fun p => negb (id p =? "") && negb (id p =? "undefined"))
       (map idAndSecondField
          (map (dropLeading isMarker)
             (filter (fun line => negb (blank line)) (split nl text)))))
  /\ (forall text : string,
        joinWith nl (split nl text) = text /\
        Forall (fun line => occurs nl line = false) (split nl text))
  /\ (forall line : string,
        exists prefix,
          line = prefix ++ dropLeading isMarker line /\
          allMarkers prefix = true /\
          match dropLeading isMarker line with
          | EmptyString => True
          | String c _ => isMarker c = false
          end)
  /\ (forall cleanLine : string,
        after " " cleanLine = None ->
        version (idAndSecondField cleanLine) = "unknown")
  /\ parsePluginList "" = []
  /\ parsePluginList (String nl " > cordova-plugin-device 2.0.3 Device")
     = [ {| id := "cordova-plugin-device"; version := "2.0.3" |} ].
Proof.
  split; [|split; [|split; [|split; [|split]]]].
  - intros text. unfold parsePluginList. rewrite map_map.
    rewrite (filter_ext _ _ keepPlugin_validId). unfold validId. f_equal.
    rewrite (filter_ext _ (fun line => negb (blank line)) truthy_trim).
    apply map_ext. intros line.
    now rewrite parseLine_fields, stripMarkers_dropLeading.
  - intros text. split; [apply joinWith_split | apply occurs_split].
  - exact dropLeading_spec.
  - intros cleanLine H. unfold idAndSecondField. cbn [version]. now rewrite H.
  - reflexivity.
  - vm_compute. reflexivity.
Qed.

(** C5: every record in the output of [parsePluginList] has an [id] that
    is neither empty nor ["undefined"]; the output is the sequence of the
    records of the input lines, in the order of the lines, with exactly the
    records violating this dropped; so the records of a text come before
    those of the text that follows it. *)
Theorem parsePluginList_invariant :
  (forall text : string,
     Forall (fun p => id p <> "" /\ id p <> "undefined") (parsePluginList text))
  /\ (forall text : string,
        parsePluginList text =
        filter (fun p => negb (id p =? "") && negb (id p =? "undefined"))
          (map parseLine (split nl text)))
  /\ (forall before_ after_ : string,
        parsePluginList (before_ ++ String nl after_) =
        (parsePluginList before_ ++ parsePluginList after_)%list).
Proof.
  split; [|split].
  - intros text. unfold parsePluginList. apply Forall_forall.
    intros p Hp. apply filter_In in Hp. now apply keepPlugin_spec.
  - exact parsePluginList_lines.
  - exact parsePluginList_app.
Qed.

(* ================================================================== *)
(** ** Numbers: comparison and conversion *)

Lemma num_lt_asym (a b : number) : num_lt a b = true -> num_lt b a = false.
Proof.
  destruct a as [|[|]|x], b as [|[|]|y]; simpl; try reflexivity; try discriminate.
  rewrite <- (Qcompare_antisym x y). now destruct (x ?= y)%Q.
Qed.

Lemma num_lt_NaN_l (a : number) : num_lt NaN a = false.
Proof. reflexivity. Qed.

Lemma num_lt_NaN_r (a : number) : num_lt a NaN = false.
Proof. now destruct a as [|[|]|x]. Qed.

Lemma num_lt_inject_Z (x y : Z) :
  num_lt (Fin (inject_Z x)) (Fin (inject_Z y)) = (x <? y)%Z.
Proof.
  simpl. unfold Qcompare, inject_Z. simpl Qnum. simpl Qden.
  rewrite !Z.mul_1_r. unfold Z.ltb. now destruct (x ?= y)%Z.
Qed.

(** *** Integers below 2^53 are binary64 values *)

Lemma round_half_even_1 (n : Z) : round_half_even n 1 = n.
Proof.
  unfold round_half_even. rewrite Z.mod_1_r, Z.div_1_r. reflexivity.
Qed.

Lemma ilog2_integer (v : Z) : (0 < v)%Z -> ilog2 v 1 = Z.log2 v.
Proof.
  intros Hv. unfold ilog2. change (Z.log2 1) with 0%Z. rewrite Z.sub_0_r.
  pose proof (Z.log2_nonneg v) as Hn.
  rewrite (Z.max_r 0 (Z.log2 v)) by lia.
  rewrite (Z.max_l 0 (- Z.log2 v)) by lia.
  change (2 ^ 0)%Z with 1%Z. rewrite Z.mul_1_l, Z.mul_1_r.
  destruct (Z.log2_spec v Hv) as [Hl _].
  apply Z.leb_le in Hl. now rewrite Hl.
Qed.

Lemma dyadic_scaled (v j : Z) :
  (0 <= j)%Z -> dyadic (v * 2 ^ j) (- j) = inject_Z v.
Proof.
  intros Hj. unfold dyadic.
  destruct (Z.eq_dec j 0) as [->|Hne].
  - simpl. now rewrite !Z.mul_1_r.
  - assert (E : (0 <=? - j)%Z = false) by (apply Z.leb_gt; lia).
    rewrite E, Z.opp_involutive.
    assert (Hp : (0 < 2 ^ j)%Z) by (apply Z.pow_pos_nonneg; lia).
    transitivity (Qred (inject_Z v)).
    + apply Qred_complete. unfold Qeq, inject_Z. simpl Qnum. simpl Qden.
      rewrite Z2Pos.id by exact Hp. lia.
    + apply Qcanon.Qred_identity. simpl. apply Z.gcd_1_r.
Qed.

Lemma round64_integer (v : Z) :
  (0 <= v < 2 ^ 53)%Z -> round64 false v 1 = Fin (inject_Z v).
Proof.
  intros [H0 H53]. unfold round64.
  destruct (Z.eqb_spec v 0) as [->|Hne]; [reflexivity|].
  assert (Hv : (0 < v)%Z) by lia.
  rewrite (ilog2_integer v Hv).
  assert (Hl : (0 <= Z.log2 v < 53)%Z).
  { split; [apply Z.log2_nonneg|]. now apply Z.log2_lt_pow2. }
  rewrite (Z.max_l (Z.log2 v - 52) (-1074)) by lia.
  rewrite (Z.max_r 0 (- (Z.log2 v - 52))) by lia.
  rewrite (Z.max_l 0 (Z.log2 v - 52)) by lia.
  change (1 * 2 ^ 0)%Z with 1%Z. rewrite round_half_even_1.
  set (j := (- (Z.log2 v - 52))%Z).
  replace (Z.log2 v - 52)%Z with (- j)%Z by (unfold j; lia).
  assert (Hj : (0 <= j)%Z) by (unfold j; lia).
  assert (Hov : (2 ^ 1024 <=? v * 2 ^ j * 2 ^ (- j))%Z = false).
  { apply Z.leb_gt. destruct (Z.eq_dec j 0) as [E|E].
    - rewrite E. change (2 ^ (- 0))%Z with 1%Z. change (2 ^ 0)%Z with 1%Z.
      rewrite !Z.mul_1_r.
      apply Z.lt_trans with (2 ^ 53)%Z; [exact H53|].
      apply Z.pow_lt_mono_r; lia.
    - rewrite (Z.pow_neg_r 2 (- j)) by lia. rewrite Z.mul_0_r.
      apply Z.pow_pos_nonneg; lia. }
  rewrite Hov. f_equal. now apply dyadic_scaled.
Qed.

(** *** Strings of decimal digits *)

Lemma digit_char (c : ascii) (d : Z) :
  digit_of 10 c = Some d ->
  (0 <= d <= 9)%Z /\ is_space c = false /\
  Ascii.eqb c "." = false /\ Ascii.eqb c "+" = false /\
  Ascii.eqb c "-" = false /\ Ascii.eqb c "u" = false /\
  Ascii.eqb c "I" = false /\
  Ascii.eqb c "x" || Ascii.eqb c "X" = false /\
  Ascii.eqb c "o" || Ascii.eqb c "O" = false /\
  Ascii.eqb c "b" || Ascii.eqb c "B" = false.
Proof.
  destruct c as [[] [] [] [] [] [] [] []]; vm_compute; intros H;
    try discriminate H; injection H as <-;
    repeat split; try reflexivity; discriminate.
Qed.

Lemma decimalValue_nonneg (s : string) (acc v : Z) :
  decimalValue s acc = Some v -> (0 <= acc)%Z -> (0 <= v)%Z.
Proof.
  revert acc. induction s as [|c s IH]; simpl; intros acc H Hacc.
  - now injection H as <-.
  - destruct (digit_of 10 c) as [d|] eqn:D; [|discriminate].
    apply digit_char in D. apply (IH _ H). lia.
Qed.

Lemma decimalValue_scan (s : string) (acc v : Z) (count : nat) :
  decimalValue s acc = Some v ->
  scan_digits 10 s acc count = (v, (count + String.length s)%nat, "").
Proof.
  revert acc count. induction s as [|c s IH]; simpl; intros acc count H.
  - injection H as <-. now rewrite Nat.add_0_r.
  - destruct (digit_of 10 c) as [d|]; [|discriminate].
    rewrite (IH _ _ H). now rewrite Nat.add_succ_r.
Qed.

Lemma decimalValue_trimEnd (s : string) (acc v : Z) :
  decimalValue s acc = Some v -> trimEnd s = s.
Proof.
  revert acc. induction s as [|c s IH]; simpl; intros acc H; [reflexivity|].
  destruct (digit_of 10 c) as [d|] eqn:D; [|discriminate].
  apply digit_char in D. destruct D as (_ & Hs & _).
  rewrite (IH _ H). destruct s; [now rewrite Hs | reflexivity].
Qed.

Lemma decimalValue_no_dot (s : string) (acc v : Z) :
  decimalValue s acc = Some v -> split "." s = [s].
Proof.
  revert acc. induction s as [|c s IH]; simpl; intros acc H; [reflexivity|].
  destruct (digit_of 10 c) as [d|] eqn:D; [|discriminate].
  apply digit_char in D. destruct D as (_ & _ & Hd & _).
  rewrite Hd. now rewrite (IH _ H).
Qed.

Lemma decimal_cons (s : string) (v : Z) :
  decimal s = Some v ->
  exists c r d, s = String c r /\ digit_of 10 c = Some d /\
                decimalValue r d = Some v.
Proof.
  destruct s as [|c r]; [discriminate|]. simpl.
  destruct (digit_of 10 c) as [d|] eqn:D; [|discriminate].
  intros H. now exists c, r, d.
Qed.

Lemma decimal_radixPrefix (s : string) (v : Z) :
  decimal s = Some v -> radixPrefix s = None.
Proof.
  intros H. destruct (decimal_cons s v H) as (c & r & d & -> & D & Hr).
  destruct r as [|c1 r]; [reflexivity|]. simpl in Hr |- *.
  destruct (digit_of 10 c1) as [d1|] eqn:D1; [|discriminate].
  apply digit_char in D1.
  destruct D1 as (_ & _ & _ & _ & _ & _ & _ & Hx & Ho & Hb).
  rewrite Hx, Ho, Hb. now destruct (Ascii.eqb c "0").
Qed.

(** [Number] on a string of decimal digits below 2^53 is the integer the
    digits denote. *)
Lemma Number_decimal (s : string) (v : Z) :
  decimal s = Some v -> (v < 2 ^ 53)%Z -> Number s = Fin (inject_Z v).
Proof.
  intros H Hv. pose proof (decimal_radixPrefix s v H) as Hp.
  destruct (decimal_cons s v H) as (c & r & d & -> & D & Hr).
  assert (Hs : decimalValue (String c r) 0 = Some v) by exact H.
  pose proof (digit_char c d D) as (Hd & Hsp & _ & Hplus & Hminus & _ & HI & _).
  unfold Number, trim. cbn [trimStart]. rewrite Hsp.
  rewrite (decimalValue_trimEnd _ _ _ Hs), Hp, Hplus, Hminus.
  unfold unsignedDecimalLiteral.
  assert (E : (String c r =? "Infinity") = false).
  { cbn [String.eqb]. now rewrite HI. }
  rewrite E, (decimalValue_scan _ _ _ 0 Hs).
  cbn [String.length Nat.add exponentPart]. unfold decimal64.
  change (0 <=? 0)%Z with true. cbv iota.
  change (10 ^ 0)%Z with 1%Z. rewrite Z.mul_1_r.
  apply round64_integer. split; [|exact Hv].
  apply (decimalValue_nonneg _ _ _ Hs). lia.
Qed.

Lemma dotted_split (a b c : string) (x y z : Z) :
  decimal a = Some x -> decimal b = Some y -> decimal c = Some z ->
  split "." (dotted a b c) = [a; b; c].
Proof.
  intros Ha Hb Hc. unfold dotted.
  change ("." ++ b ++ "." ++ c) with (String "." (b ++ String "." c)).
  rewrite !split_app.
  destruct a as [|a0 a]; [discriminate|].
  destruct b as [|b0 b]; [discriminate|].
  destruct c as [|c0 c]; [discriminate|].
  now rewrite (decimalValue_no_dot _ _ _ Ha), (decimalValue_no_dot _ _ _ Hb),
    (decimalValue_no_dot _ _ _ Hc).
Qed.

Lemma dotted_not_unknown (a b c : string) (x : Z) :
  decimal a = Some x -> (dotted a b c =? "unknown") = false.
Proof.
  intros Ha. destruct (decimal_cons a x Ha) as (c0 & r & d & -> & D & _).
  apply digit_char in D. destruct D as (_ & _ & _ & _ & _ & Hu & _).
  unfold dotted. cbn [append String.eqb]. now rewrite Hu.
Qed.

(* ================================================================== *)
(** ** Version Comparator: properties *)

Lemma compareVersions_loop (current latest : string) :
  current <> "unknown" ->
  compareVersions current latest =
  compareFrom (map Number (split "." current))
              (map Number (split "." latest)) 0 3.
Proof.
  intros H. unfold compareVersions.
  apply String.eqb_neq in H. now rewrite H.
Qed.

Section Loop.

Variables current latest : string.

Let loop := compareFrom (map Number (split "." current))
                        (map Number (split "." latest)).

Lemma loop_step (i n : nat) :
  loop i (S n) =
  if num_gt (component latest i) (component current i) then true
  else if num_lt (component latest i) (component current i) then false
  else loop (S i) n.
Proof. reflexivity. Qed.

Lemma loop_skip (i n : nat) :
  undecided current latest i -> loop i (S n) = loop (S i) n.
Proof. intros [Hg Hl]. now rewrite loop_step, Hg, Hl. Qed.

Lemma loop_skips (k i n : nat) :
  (forall j, i <= j < i + k -> undecided current latest j) ->
  loop i (k + n) = loop (i + k) n.
Proof.
  revert i. induction k as [|k IH]; intros i H.
  - now rewrite Nat.add_0_r.
  - cbn [Nat.add]. rewrite loop_skip by (apply H; lia).
    rewrite IH by (intros j Hj; apply H; lia).
    f_equal. lia.
Qed.

Lemma loop_all_undecided (i n : nat) :
  (forall j, i <= j < i + n -> undecided current latest j) ->
  loop i n = false.
Proof.
  intros H. rewrite <- (Nat.add_0_r n), loop_skips by exact H. reflexivity.
Qed.

Lemma loop_gt (k i n : nat) :
  (forall j, i <= j < i + k -> undecided current latest j) ->
  num_gt (component latest (i + k)) (component current (i + k)) = true ->
  loop i (k + S n) = true.
Proof.
  intros H G. now rewrite loop_skips, loop_step, G by exact H.
Qed.

Lemma loop_lt (k i n : nat) :
  (forall j, i <= j < i + k -> undecided current latest j) ->
  num_lt (component latest (i + k)) (component current (i + k)) = true ->
  loop i (k + S n) = false.
Proof.
  intros H L. rewrite loop_skips, loop_step, L by exact H.
  unfold num_gt. now rewrite (num_lt_asym _ _ L).
Qed.

(** The loop answers true exactly when some component makes [latest]
    greater and every component before it is undecided. *)
Lemma loop_true_iff (i n : nat) :
  loop i n = true <->
  exists k, i <= k < i + n /\
    num_gt (component latest k) (component current k) = true /\
    forall j, i <= j < k -> undecided current latest j.
Proof.
  revert i. induction n as [|n IH]; intros i.
  - split; [discriminate|]. intros (k & Hk & _). lia.
  - rewrite loop_step.
    destruct (num_gt (component latest i) (component current i)) eqn:G.
    + split; [|reflexivity]. intros _. exists i.
      split; [lia|]. split; [exact G|]. intros j Hj. lia.
    + destruct (num_lt (component latest i) (component current i)) eqn:L.
      * split; [discriminate|]. intros (k & Hk & Gk & Hu).
        destruct (Nat.eq_dec k i) as [->|Hne]; [congruence|].
        destruct (Hu i) as [_ Hl]; [lia|]. congruence.
      * rewrite IH. split; intros (k & Hk & Gk & Hu); exists k.
        -- split; [lia|]. split; [exact Gk|]. intros j Hj.
           destruct (Nat.eq_dec j i) as [->|Hne]; [now split|].
           apply Hu. lia.
        -- destruct (Nat.eq_dec k i) as [->|Hne]; [congruence|].
           split; [lia|]. split; [exact Gk|]. intros j Hj. apply Hu. lia.
Qed.

End Loop.

Lemma undecided_NaN (current latest : string) (i : nat) :
  component current i = NaN \/ component latest i = NaN ->
  undecided current latest i.
Proof.
  unfold undecided, num_gt.
  intros [-> | ->]; now rewrite ?num_lt_NaN_l, ?num_lt_NaN_r.
Qed.

(** A missing segment is [NaN]; a segment that is there is what [Number]
    makes of it. *)
Lemma component_missing (v : string) (i : nat) :
  nth_error (split "." v) i = None -> component v i = NaN.
Proof.
  intros H. unfold component. rewrite nth_error_map, H. reflexivity.
Qed.

Lemma component_segment (v seg : string) (i : nat) :
  nth_error (split "." v) i = Some seg -> component v i = Number seg.
Proof.
  intros H. unfold component. rewrite nth_error_map, H. reflexivity.
Qed.

(** The first component that tells the two versions apart decides, and
    nothing is reported when none of the three does. *)
Lemma compareVersions_first_difference (current latest : string) :
  current <> "unknown" ->
  (forall i, i < 3 ->
     (forall j, j < i -> undecided current latest j) ->
     num_gt (component latest i) (component current i) = true ->
     compareVersions current latest = true)
  /\ (forall i, i < 3 ->
        (forall j, j < i -> undecided current latest j) ->
        num_lt (component latest i) (component current i) = true ->
        compareVersions current latest = false)
  /\ ((forall i, i < 3 -> undecided current latest i) ->
      compareVersions current latest = false).
Proof.
  intros Hc. rewrite (compareVersions_loop current latest Hc).
  split; [|split].
  - intros i Hi Hu G.
    replace 3 with (i + S (2 - i)) by lia.
    apply (loop_gt current latest i 0); [intros j Hj; apply Hu; lia | exact G].
  - intros i Hi Hu L.
    replace 3 with (i + S (2 - i)) by lia.
    apply (loop_lt current latest i 0); [intros j Hj; apply Hu; lia | exact L].
  - intros Hu. apply loop_all_undecided. intros j Hj. apply Hu. lia.
Qed.

(** On versions made of three strings of decimal digits, each below 2^53,
    the comparator is the order on the triples of integers. *)
Lemma compareVersions_integers (a b c a' b' c' : string) (x y z x' y' z' : Z) :
  decimal a = Some x -> decimal b = Some y -> decimal c = Some z ->
  decimal a' = Some x' -> decimal b' = Some y' -> decimal c' = Some z' ->
  (Z.max (Z.max x (Z.max y z)) (Z.max x' (Z.max y' z')) < 2 ^ 53)%Z ->
  compareVersions (dotted a b c) (dotted a' b' c') = tripleBefore x y z x' y' z'.
Proof.
  intros Ha Hb Hc Ha' Hb' Hc' Hmax.
  unfold compareVersions.
  rewrite (dotted_not_unknown a b c x Ha).
  rewrite (dotted_split a b c x y z Ha Hb Hc).
  rewrite (dotted_split a' b' c' x' y' z' Ha' Hb' Hc').
  cbn [map].
  rewrite (Number_decimal a x Ha), (Number_decimal b y Hb),
    (Number_decimal c z Hc), (Number_decimal a' x' Ha'),
    (Number_decimal b' y' Hb'), (Number_decimal c' z' Hc') by lia.
  cbn [compareFrom nth_error toNumber]. unfold num_gt.
  rewrite !num_lt_inject_Z. unfold tripleBefore.
  destruct (Z.ltb_spec x x'), (Z.ltb_spec x' x), (Z.eqb_spec x x'),
    (Z.ltb_spec y y'), (Z.ltb_spec y' y), (Z.eqb_spec y y'),
    (Z.ltb_spec z z'), (Z.ltb_spec z' z); simpl; try reflexivity; lia.
Qed.

(** C1: for [current] other than ["unknown"], [compareVersions] splits both
    strings on ['.'], converts the segments to numbers and compares the first
    three components in the order major, minor, patch: at the first component
    where the two differ it returns true when [latest] is the greater and
    false when [latest] is the smaller, and it returns false when no
    component of the three tells them apart.  When the segments are strings
    of decimal digits (below 2^53, where every integer is a number of the
    runtime), the components are the integers the digits denote and the
    answer is the comparison of the two triples of integers. *)
Theorem compareVersions_componentwise (current latest : string) :
  current <> "unknown" ->
  (forall i, i < 3 ->
     (forall j, j < i -> undecided current latest j) ->
     num_gt (component latest i) (component current i) = true ->
     compareVersions current latest = true)
  /\ (forall i, i < 3 ->
        (forall j, j < i -> undecided current latest j) ->
        num_lt (component latest i) (component current i) = true ->
        compareVersions current latest = false)
  /\ ((forall i, i < 3 -> undecided current latest i) ->
      compareVersions current latest = false)
  /\ (forall (a b c a' b' c' : string) (x y z x' y' z' : Z),
        current = dotted a b c -> latest = dotted a' b' c' ->
        decimal a = Some x -> decimal b = Some y -> decimal c = Some z ->
        decimal a' = Some x' -> decimal b' = Some y' -> decimal c' = Some z' ->
        (Z.max (Z.max x (Z.max y z)) (Z.max x' (Z.max y' z')) < 2 ^ 53)%Z ->
        compareVersions current latest = tripleBefore x y z x' y' z').
Proof.
  intros Hc.
  destruct (compareVersions_first_difference current latest Hc)
    as (Hgt & Hlt & Heq).
  split; [exact Hgt|]. split; [exact Hlt|]. split; [exact Heq|].
  intros a b c a' b' c' x y z x' y' z' -> ->.
  apply compareVersions_integers.
Qed.

Lemma compareVersions_componentwise_witness :
  "1.2.3" <> "unknown" /\
  compareVersions "1.2.3" "1.3.0" = true /\
  compareVersions "1.3.0" "1.2.9" = false /\
  compareVersions "1.2.3" "1.2.3" = false /\
  compareVersions "1.2.3" "1.3.0" = tripleBefore 1 2 3 1 3 0.
Proof.
  split; [discriminate|]. split; [|split; [|split]].
  - apply (proj1 (compareVersions_componentwise "1.2.3" "1.3.0"
                    ltac:(discriminate)) 1).
    + repeat constructor.
    + intros [|j] Hj; [split; reflexivity | lia].
    + reflexivity.
  - apply (proj1 (proj2 (compareVersions_componentwise "1.3.0" "1.2.9"
                           ltac:(discriminate))) 1).
    + repeat constructor.
    + intros [|j] Hj; [split; reflexivity | lia].
    + reflexivity.
  - apply (proj1 (proj2 (proj2 (compareVersions_componentwise "1.2.3" "1.2.3"
                                  ltac:(discriminate))))).
    intros [|[|[|i]]] Hi; [split; reflexivity .. | lia].
  - apply (proj2 (proj2 (proj2 (compareVersions_componentwise "1.2.3" "1.3.0"
                                  ltac:(discriminate))))
             "1" "2" "3" "1" "3" "0"); reflexivity.
Defined.

Example compareVersions_integers_example :
  compareVersions (dotted "1" "9" "12") (dotted "1" "10" "0") = true.
Proof.
  apply (compareVersions_integers "1" "9" "12" "1" "10" "0" 1 9 12 1 10 0);
    reflexivity.
Qed.

(** The comparisons section 8 of the specification lists. *)
Example compareVersions_examples :
  compareVersions "unknown" "1.0.0" = true /\
  compareVersions "1.2.3" "1.2.3" = false /\
  compareVersions "1.2.3" "1.3.0" = true /\
  compareVersions "1.3.0" "1.2.9" = false /\
  compareVersions "2.0.0" "1.9.9" = false.
Proof. repeat split; vm_compute; reflexivity. Qed.

(** Above 2^53 two integers may be the same number: the major component
    of [latest] is the greater integer here, and the minor one decides. *)
Example compareVersions_beyond_2_53 :
  Number "9007199254740993" = Number "9007199254740992" /\
  compareVersions "9007199254740992.1.0" "9007199254740993.0.0" = false.
Proof. split; vm_compute; reflexivity. Qed.

(** An empty segment is the number 0, not [NaN]. *)
Example compareVersions_empty_segment :
  Number "" = Fin 0 /\ compareVersions "1.0.0" "1..5" = true.
Proof. split; vm_compute; reflexivity. Qed.

(** C2: whatever [latest] is, [compareVersions "unknown" latest] is true. *)
Theorem compareVersions_unknown (latest : string) :
  compareVersions "unknown" latest = true.
Proof.
  unfold compareVersions. rewrite String.eqb_refl. reflexivity.
Qed.

(** C3, as stated, fails on the code: in ["1.x.0"] the minor segment is no
    number, nothing is decided before it, and the comparator still answers
    true, because the patch component is compared after it. *)
Lemma compareVersions_nan_counterexample :
  "1.x.0" <> "unknown" /\
  component "1.x.0" 1 = NaN /\
  (forall j, j < 1 -> undecided "1.x.0" "1.0.5" j) /\
  compareVersions "1.x.0" "1.0.5" = true /\
  ~ (forall current latest i,
       current <> "unknown" -> i < 3 ->
       component current i = NaN \/ component latest i = NaN ->
       (forall j, j < i -> undecided current latest j) ->
       compareVersions current latest = false).
Proof.
  assert (U : forall j, j < 1 -> undecided "1.x.0" "1.0.5" j).
  { intros j Hj. assert (j = 0) as -> by lia. split; vm_compute; reflexivity. }
  split; [discriminate|]. split; [reflexivity|]. split; [exact U|].
  split; [reflexivity|].
  intros H.
  assert (E : compareVersions "1.x.0" "1.0.5" = false).
  { apply (H "1.x.0" "1.0.5" 1); [discriminate | lia | now left | exact U]. }
  vm_compute in E. discriminate E.
Qed.

(** C3 (amended): for [current] other than ["unknown"], a component at
    which a segment of either string is missing or is no number (its value
    is [NaN]) decides nothing, since [NaN] fails both comparisons, and the
    comparison goes on with the components after it.  When nothing was
    decided before that component, [compareVersions] returns true exactly
    when a later component makes [latest] the greater with nothing decided
    in between, and it returns false when no later component decides, as
    when the component is the patch one. *)
Theorem compareVersions_nan_skipped (current latest : string) (i : nat) :
  current <> "unknown" -> i < 3 ->
  component current i = NaN \/ component latest i = NaN ->
  (forall j, j < i -> undecided current latest j) ->
  undecided current latest i
  /\ (compareVersions current latest = true <->
      exists k, i < k < 3 /\
        num_gt (component latest k) (component current k) = true /\
        forall j, i < j < k -> undecided current latest j)
  /\ ((forall k, i < k < 3 -> undecided current latest k) ->
      compareVersions current latest = false)
  /\ (i = 2 -> compareVersions current latest = false).
Proof.
  intros Hc Hi Hnan Hbefore.
  pose proof (undecided_NaN current latest i Hnan) as Hu.
  assert (Hall : forall j, j <= i -> undecided current latest j).
  { intros j Hj. destruct (Nat.eq_dec j i) as [->|Hne]; [exact Hu|].
    apply Hbefore. lia. }
  assert (Hfalse : (forall k, i < k < 3 -> undecided current latest k) ->
                   compareVersions current latest = false).
  { intros Hafter. rewrite (compareVersions_loop current latest Hc).
    apply loop_all_undecided. intros j Hj.
    destruct (Nat.le_gt_cases j i); [now apply Hall | apply Hafter; lia]. }
  split; [exact Hu|]. split; [|split].
  - rewrite (compareVersions_loop current latest Hc), loop_true_iff.
    split; intros (k & Hk & G & Hm); exists k.
    + assert (i < k).
      { destruct (Nat.le_gt_cases k i) as [Hle|]; [|assumption].
        destruct (Hall k Hle) as [Hg _]. congruence. }
      split; [lia|]. split; [exact G|]. intros j Hj. apply Hm. lia.
    + split; [lia|]. split; [exact G|]. intros j Hj.
      destruct (Nat.le_gt_cases j i); [now apply Hall | apply Hm; lia].
  - exact Hfalse.
  - intros ->. apply Hfalse. intros k Hk. lia.
Qed.

Lemma compareVersions_nan_skipped_witness :
  "1.x.0" <> "unknown" /\ 1 < 3 /\
  (component "1.x.0" 1 = NaN \/ component "1.0.5" 1 = NaN) /\
  (forall j, j < 1 -> undecided "1.x.0" "1.0.5" j) /\
  undecided "1.x.0" "1.0.5" 1 /\
  (compareVersions "1.x.0" "1.0.5" = true <->
   exists k, 1 < k < 3 /\
     num_gt (component "1.0.5" k) (component "1.x.0" k) = true /\
     forall j, 1 < j < k -> undecided "1.x.0" "1.0.5" j) /\
  ((forall k, 1 < k < 3 -> undecided "1.x.0" "1.0.5" k) ->
   compareVersions "1.x.0" "1.0.5" = false) /\
  (1 = 2 -> compareVersions "1.x.0" "1.0.5" = false).
Proof.
  assert (U : forall j, j < 1 -> undecided "1.x.0" "1.0.5" j).
  { intros [|j] Hj; [split; reflexivity | lia]. }
  split; [discriminate|]. split; [repeat constructor|].
  split; [left; reflexivity|]. split; [exact U|].
  apply (compareVersions_nan_skipped "1.x.0" "1.0.5" 1);
    [discriminate | repeat constructor | left; reflexivity | exact U].
Defined.

(** With the patch component no number, nothing is left to decide. *)
Example compareVersions_nan_patch :
  component "1.0.x" 2 = NaN /\ compareVersions "1.0.x" "1.0.5" = false.
Proof. split; vm_compute; reflexivity. Qed.

(* ================================================================== *)
(** ** Running the script: worlds and traces *)

Lemma record_record (w : World) (a b : list Event) :
  record (record w a) b = record w (a ++ b).
Proof. unfold record. simpl. now rewrite <- app_assoc. Qed.

Lemma record_moved (w : World) (dir : string) (a : list Event) :
  record (moved w dir) a = {| cwd := dir; trace := trace w ++ EvChdir dir :: a |}.
Proof. unfold record, moved. simpl. now rewrite <- app_assoc. Qed.

Lemma questions_app (a b : list Event) :
  questions (a ++ b) = (questions a ++ questions b)%list.
Proof.
  induction a as [|e a IH]; [reflexivity|].
  destruct e; simpl; now rewrite IH.
Qed.

Lemma chdirs_app (a b : list Event) :
  chdirs (a ++ b) = (chdirs a ++ chdirs b)%list.
Proof.
  induction a as [|e a IH]; [reflexivity|].
  destruct e; simpl; now rewrite IH.
Qed.

Lemma stays_refl (w : World) : stays w w.
Proof. split; [reflexivity|]. exists []. now rewrite app_nil_r. Qed.

Lemma stays_trans (w1 w2 w3 : World) : stays w1 w2 -> stays w2 w3 -> stays w1 w3.
Proof.
  intros [C1 (m1 & T1 & D1)] [C2 (m2 & T2 & D2)]. split; [congruence|].
  exists (m1 ++ m2)%list. split.
  - now rewrite T2, T1, app_assoc.
  - now rewrite chdirs_app, D1, D2.
Qed.

Lemma stays_record (w : World) (events : list Event) :
  chdirs events = [] -> stays w (record w events).
Proof. intros H. split; [reflexivity|]. now exists events. Qed.

(* ================================================================== *)
(** ** Interactive Updater: properties *)

Lemma execPromise_ok (host : Host) (command : string) (w : World) (out : string) :
  exec_result host (trace w) command = inl out ->
  execPromise host command w = (Return out, record w [EvExec command]).
Proof. intros H. unfold execPromise. now rewrite H. Qed.

Lemma execPromise_failed (host : Host) (command : string) (w : World) (msg : string) :
  exec_result host (trace w) command = inr msg ->
  execPromise host command w = (Throw (mkError msg), record w [EvExec command]).
Proof. intros H. unfold execPromise. now rewrite H. Qed.

Lemma updatePlugin_run (host : Host) (pluginId : string) (w : World) :
  exists ok w',
    updatePlugin host pluginId w = (Return ok, w') /\
    Updated host w pluginId ok w'.
Proof.
  cbv [updatePlugin try_catch bind console_log console_error emit ret].
  change ("cordova plugin remove " ++ pluginId ++ " --force")
    with (removeCommand pluginId).
  change ("cordova plugin add " ++ pluginId) with (addCommand pluginId).
  change (String nl "Updating " ++ pluginId ++ "...")
    with (updatingMessage pluginId).
  destruct (exec_result host (trace w ++ [EvLog (updatingMessage pluginId)])
              (removeCommand pluginId)) as [out|msg] eqn:R.
  - rewrite (execPromise_ok host (removeCommand pluginId)
               (record w [EvLog (updatingMessage pluginId)]) out R).
    rewrite record_record. cbn [app].
    set (w1 := record w [EvLog (updatingMessage pluginId);
                         EvExec (removeCommand pluginId)]).
    destruct (exec_result host
                (trace w ++ [EvLog (updatingMessage pluginId);
                             EvExec (removeCommand pluginId)])
                (addCommand pluginId)) as [out'|msg] eqn:A.
    + rewrite (execPromise_ok host (addCommand pluginId) w1 out' A).
      unfold w1. rewrite !record_record. exists true. eexists.
      split; [reflexivity|].
      now apply (Updated_done host w pluginId out out').
    + rewrite (execPromise_failed host (addCommand pluginId) w1 msg A).
      unfold w1. rewrite !record_record. exists false. eexists.
      split; [reflexivity|].
      now apply (Updated_add_failed host w pluginId out msg).
  - rewrite (execPromise_failed host (removeCommand pluginId)
               (record w [EvLog (updatingMessage pluginId)]) msg R).
    rewrite !record_record. exists false. eexists. split; [reflexivity|].
    now apply (Updated_remove_failed host w pluginId msg).
Qed.

Lemma lower_ascii_y (c : ascii) :
  lower_ascii c = "y"%char -> c = "y"%char \/ c = "Y"%char.
Proof.
  destruct c as [[] [] [] [] [] [] [] []]; vm_compute; intros H;
    try discriminate H; auto.
Qed.

Lemma toLowerCase_empty (s : string) : toLowerCase s = "" -> s = "".
Proof. destruct s; [reflexivity | discriminate]. Qed.

(** The answers the updater takes for a yes are ["y"] and ["Y"]. *)
Lemma toLowerCase_y (a : string) :
  (toLowerCase a =? "y") = true <-> a = "y" \/ a = "Y".
Proof.
  rewrite String.eqb_eq. split.
  - destruct a as [|c r]; [discriminate|]. simpl. intros H.
    injection H as Hc Hr. apply toLowerCase_empty in Hr. subst r.
    destruct (lower_ascii_y c Hc) as [-> | ->]; auto.
  - intros [-> | ->]; reflexivity.
Qed.

Lemma Updated_stays (host : Host) (w : World) (pluginId : string)
    (ok : bool) (w' : World) :
  Updated host w pluginId ok w' -> stays w w'.
Proof. intros U. destruct U; now apply stays_record. Qed.

Lemma Updated_questions (host : Host) (w : World) (pluginId : string)
    (ok : bool) (w' : World) :
  Updated host w pluginId ok w' -> questions (trace w') = questions (trace w).
Proof.
  intros U. destruct U; cbn [record trace]; rewrite questions_app;
    apply app_nil_r.
Qed.

Lemma Asked_stays (host : Host) (w : World) (rs : list UpdateResult) (w' : World) :
  Asked host w rs w' -> stays w w'.
Proof.
  induction 1 as [w | w r rest w' _ _ _ IH | w r rest ok w1 w' _ U _ IH].
  - apply stays_refl.
  - apply stays_trans with (2 := IH). now apply stays_record.
  - apply stays_trans with (2 := IH).
    apply stays_trans with (2 := Updated_stays _ _ _ _ _ U).
    now apply stays_record.
Qed.

Lemma Asked_questions (host : Host) (w : World) (rs : list UpdateResult)
    (w' : World) :
  Asked host w rs w' ->
  questions (trace w') = (questions (trace w) ++ map updateQuery rs)%list.
Proof.
  induction 1 as [w | w r rest w' _ _ _ IH | w r rest ok w1 w' _ U _ IH].
  - now rewrite app_nil_r.
  - rewrite IH. cbn [record trace map]. rewrite questions_app.
    now rewrite <- app_assoc.
  - rewrite IH, (Updated_questions _ _ _ _ _ U).
    cbn [record trace map]. rewrite questions_app. now rewrite <- app_assoc.
Qed.

Lemma askEach_Asked (host : Host) (rs : list UpdateResult) (w : World) :
  exists w', askEach host rs w = (Return tt, w') /\ Asked host w rs w'.
Proof.
  revert w. induction rs as [|r rest IH]; intros w.
  - exists w. split; [reflexivity | constructor].
  - cbn [askEach]. cbv [bind question ret].
    change (String nl "Do you want to update " ++ plugin r
            ++ " from " ++ currentVersion r
            ++ " to " ++ showField (latestVersion r) ++ "? (y/n): ")
      with (updateQuery r).
    set (w0 := record w [EvQuestion (updateQuery r)]).
    destruct (toLowerCase (answer host (trace w) (updateQuery r)) =? "y") eqn:Y.
    + apply toLowerCase_y in Y.
      destruct (updatePlugin_run host (plugin r) w0) as (ok & w1 & E & U).
      rewrite E. destruct (IH w1) as (w' & E' & A).
      exists w'. split; [exact E'|].
      now apply (Asked_update host w r rest ok w1 w').
    + destruct (IH w0) as (w' & E' & A).
      exists w'. split; [exact E'|].
      apply (Asked_skip host w r rest w'); [| |exact A];
        intros H; rewrite H in Y; discriminate Y.
Qed.

(** C8: the interactive updater asks about every outdated plugin, one
    after the other and in order, with a question naming the plugin, its
    current and its latest version.  Exactly when the answer is ["y"] or
    ["Y"] the plugin is updated (a forcible remove, then an add by id); on
    any other answer nothing but the question happens for that plugin.  The
    updater always runs to its end: whatever the updates do, every plugin
    is asked about. *)
Theorem askEach_prompts (host : Host) (pluginsToUpdate : list UpdateResult)
    (w : World) :
  exists w',
    askEach host pluginsToUpdate w = (Return tt, w') /\
    Asked host w pluginsToUpdate w' /\
    questions (trace w') =
    (questions (trace w) ++ map updateQuery pluginsToUpdate)%list.
Proof.
  destruct (askEach_Asked host pluginsToUpdate w) as (w' & E & A).
  exists w'. split; [exact E|]. split; [exact A|].
  now apply Asked_questions with (host := host).
Qed.

(** C10: [updatePlugin] starts the forcible remove first and the add only
    once the remove has succeeded; it answers true exactly when both
    succeed, and when either fails it logs the failure and answers false,
    the add not being started after a failed remove. *)
Theorem updatePlugin_remove_then_add (host : Host) (pluginId : string)
    (w : World) :
  updatePlugin host pluginId w =
  match exec_result host (trace w ++ [EvLog (updatingMessage pluginId)])
          (removeCommand pluginId) with
  | inr msg =>
      (Return false,
       record w [EvLog (updatingMessage pluginId);
                 EvExec (removeCommand pluginId);
                 EvError (updateFailedMessage pluginId msg)])
  | inl _ =>
      match exec_result host
              (trace w ++ [EvLog (updatingMessage pluginId);
                           EvExec (removeCommand pluginId)])
              (addCommand pluginId) with
      | inr msg =>
          (Return false,
           record w [EvLog (updatingMessage pluginId);
                     EvExec (removeCommand pluginId);
                     EvExec (addCommand pluginId);
                     EvError (updateFailedMessage pluginId msg)])
      | inl _ =>
          (Return true,
           record w [EvLog (updatingMessage pluginId);
                     EvExec (removeCommand pluginId);
                     EvExec (addCommand pluginId);
                     EvLog (updatedMessage pluginId)])
      end
  end.
Proof.
  destruct (updatePlugin_run host pluginId w) as (ok & w' & E & U).
  rewrite E. destruct U as [msg R | out msg R A | out out' R A];
    rewrite R; try rewrite A; reflexivity.
Qed.

(* ================================================================== *)
(** ** Update Checker: properties *)

Lemma keepPlugin_guard (p : InstalledPlugin) :
  keepPlugin p = true ->
  negb (truthy (id p)) || (id p =? "undefined") = false.
Proof.
  unfold keepPlugin. intros H. apply andb_true_iff in H. destruct H as [H1 H2].
  rewrite H1. apply negb_true_iff in H2. now rewrite H2.
Qed.

Lemma checkEach_Checked (host : Host) (plugins : list InstalledPlugin) :
  Forall (fun p => keepPlugin p = true) plugins ->
  forall (updateResults : list UpdateResult) (w : World),
  exists results w',
    checkEach host plugins updateResults w
      = (Return (updateResults ++ results)%list, w') /\
    Checked host w plugins results w'.
Proof.
  induction 1 as [|p rest Hp _ IH]; intros acc w.
  - exists [], w. split; [|constructor]. cbn. now rewrite app_nil_r.
  - cbn [checkEach]. rewrite (keepPlugin_guard p Hp).
    cbv [bind try_catch ret console_error emit].
    change ("npm view " ++ id p ++ " version") with (lookupCommand p).
    destruct (exec_result host (trace w) (lookupCommand p)) as [out|msg] eqn:L.
    + rewrite (execPromise_ok host (lookupCommand p) w out L).
      destruct (IH (acc ++ [lookedUp p out])%list
                   (record w [EvExec (lookupCommand p)]))
        as (results & w' & E & C).
      exists (lookedUp p out :: results), w'. split.
      * unfold lookedUp in E. rewrite E. now rewrite <- app_assoc.
      * now apply (Checked_found host w p rest out results w').
    + rewrite (execPromise_failed host (lookupCommand p) w msg L).
      rewrite record_record. cbn [app].
      destruct (IH (acc ++ [lookupFailed p])%list
                   (record w [EvExec (lookupCommand p);
                              EvError (lookupFailedMessage p msg)]))
        as (results & w' & E & C).
      exists (lookupFailed p :: results), w'. split.
      * unfold lookupFailed in E. rewrite <- app_assoc in E. exact E.
      * now apply (Checked_failed host w p rest msg results w').
Qed.

Lemma Checked_results (host : Host) (w : World) (plugins : list InstalledPlugin)
    (results : list UpdateResult) (w' : World) :
  Checked host w plugins results w' ->
  length results = length plugins /\
  map plugin results = map id plugins /\
  map currentVersion results = map version plugins.
Proof.
  induction 1 as [w | w p rest out results w' _ _ (IH1 & IH2 & IH3)
                    | w p rest msg results w' _ _ (IH1 & IH2 & IH3)];
    cbn [length map]; [auto | |]; now rewrite IH1, IH2, IH3.
Qed.

Lemma Checked_stays (host : Host) (w : World) (plugins : list InstalledPlugin)
    (results : list UpdateResult) (w' : World) :
  Checked host w plugins results w' -> stays w w'.
Proof.
  induction 1 as [w | w p rest out results w' _ _ IH
                    | w p rest msg results w' _ _ IH].
  - apply stays_refl.
  - apply stays_trans with (2 := IH). now apply stays_record.
  - apply stays_trans with (2 := IH). now apply stays_record.
Qed.

Lemma parsePluginList_kept (output : string) :
  Forall (fun p => keepPlugin p = true) (parsePluginList output).
Proof.
  apply Forall_forall. intros p Hp. unfold parsePluginList in Hp.
  now apply filter_In in Hp.
Qed.

(** The run of [checkPluginUpdates] in its three cases. *)
Lemma checkPluginUpdates_no_path (host : Host) (path : string) (w : World) :
  fs_exists host path = false ->
  checkPluginUpdates host path w = (Throw (mkError (noPathMessage path)), w).
Proof.
  intros H. cbv [checkPluginUpdates try_catch bind existsSync throw].
  rewrite H. reflexivity.
Qed.

Lemma checkPluginUpdates_no_manifest (host : Host) (path : string) (w : World) :
  fs_exists host path = true ->
  fs_exists host (path_join host path "config.xml") = false ->
  checkPluginUpdates host path w = (Throw (mkError (noManifestMessage path)), w).
Proof.
  intros H1 H2. cbv [checkPluginUpdates try_catch bind existsSync throw].
  rewrite H1. cbv [negb]. rewrite H2. reflexivity.
Qed.

Lemma checkPluginUpdates_listing_failed (host : Host) (path : string)
    (w : World) (msg : string) :
  fs_exists host path = true ->
  fs_exists host (path_join host path "config.xml") = true ->
  exec_result host (trace (moved w path)) "cordova plugin list" = inr msg ->
  checkPluginUpdates host path w =
  (Throw (mkError ("Failed to check plugin updates: " ++ msg)),
   record (moved w path) [EvExec "cordova plugin list"]).
Proof.
  intros H1 H2 L.
  cbv [checkPluginUpdates try_catch bind existsSync throw process_cwd
       process_chdir].
  rewrite H1. cbv [negb]. rewrite H2.
  change {| cwd := path; trace := trace w ++ [EvChdir path] |}
    with (moved w path).
  rewrite (execPromise_failed host "cordova plugin list" (moved w path) msg L).
  reflexivity.
Qed.

Lemma checkPluginUpdates_listed (host : Host) (path : string)
    (w : World) (output : string) :
  fs_exists host path = true ->
  fs_exists host (path_join host path "config.xml") = true ->
  exec_result host (trace (moved w path)) "cordova plugin list" = inl output ->
  exists results w',
    checkPluginUpdates host path w = (Return results, w') /\
    Checked host (record (moved w path) [EvExec "cordova plugin list"])
      (parsePluginList output) results w'.
Proof.
  intros H1 H2 L.
  cbv [checkPluginUpdates try_catch bind existsSync throw process_cwd
       process_chdir].
  rewrite H1. cbv [negb]. rewrite H2.
  change {| cwd := path; trace := trace w ++ [EvChdir path] |}
    with (moved w path).
  rewrite (execPromise_ok host "cordova plugin list" (moved w path) output L).
  destruct (checkEach_Checked host (parsePluginList output)
              (parsePluginList_kept output) []
              (record (moved w path) [EvExec "cordova plugin list"]))
    as (results & w' & E & C).
  exists results, w'. split; [|exact C].
  rewrite E. reflexivity.
Qed.

(* ================================================================== *)
(** ** Session Driver: properties *)

Lemma report_run (results : list UpdateResult) :
  forall (pluginsToUpdate : list UpdateResult) (w : World),
  exists w',
    report results pluginsToUpdate w
      = (Return (pluginsToUpdate ++ filter eligible results)%list, w') /\
    stays w w' /\ questions (trace w') = questions (trace w).
Proof.
  induction results as [|r rest IH]; intros acc w.
  - exists w. cbn. rewrite app_nil_r.
    split; [reflexivity|]. split; [apply stays_refl | reflexivity].
  - cbn [report filter]. unfold eligible at 1.
    destruct (hasError r) eqn:He; cbn [negb andb].
    + cbv [bind console_log emit].
      match goal with |- context [record w ?l] =>
        destruct (IH acc (record w l)) as (w' & E & S & Q) end.
      exists w'. split; [exact E|]. split.
      * apply stays_trans with (2 := S). now apply stays_record.
      * rewrite Q. cbn [record trace]. rewrite questions_app. apply app_nil_r.
    + cbv [bind console_log emit].
      destruct (wantsUpdate r) eqn:Hu.
      * match goal with |- context [record w ?l] =>
          destruct (IH (acc ++ [r])%list (record w l)) as (w' & E & S & Q) end.
        exists w'. split; [rewrite E; now rewrite <- app_assoc|]. split.
        -- apply stays_trans with (2 := S). now apply stays_record.
        -- rewrite Q. cbn [record trace]. rewrite questions_app.
           apply app_nil_r.
      * match goal with |- context [record w ?l] =>
          destruct (IH acc (record w l)) as (w' & E & S & Q) end.
        exists w'. split; [exact E|]. split.
        -- apply stays_trans with (2 := S). now apply stays_record.
        -- rewrite Q. cbn [record trace]. rewrite questions_app.
           apply app_nil_r.
Qed.

(** A fatal error of the check: the session prints it, closes the prompt
    and leaves with status 1. *)
Lemma checkUpdates_fatal (host : Host) (w : World) (e : Error) (w1 : World) :
  checkPluginUpdates host (targetPath host w) (started host w) = (Throw e, w1) ->
  checkUpdates host w =
  (Exit 1, record w1 [EvError (fatalMessage (message e)); EvClose; EvExit 1%Z]).
Proof.
  intros H. unfold started, targetPath in H.
  cbv [checkUpdates try_catch bind process_cwd console_log console_error
       rl_close emit process_exit].
  rewrite H. rewrite !record_record. reflexivity.
Qed.

(** Once the check is over, the session never changes the directory. *)
Lemma checkUpdates_stays (host : Host) (w : World)
    (o1 : Outcome (list UpdateResult)) (w1 : World) :
  checkPluginUpdates host (targetPath host w) (started host w) = (o1, w1) ->
  exists o w', checkUpdates host w = (o, w') /\ stays w1 w'.
Proof.
  intros H. destruct o1 as [results | e | code].
  - unfold started, targetPath in H.
    cbv [checkUpdates try_catch bind process_cwd console_log console_error
         rl_close emit process_exit].
    rewrite H.
    match goal with |- context [report results [] ?w2] =>
      destruct (report_run results [] w2) as (w3 & E & S & _);
      assert (S2 : stays w1 w2) by now apply stays_record end.
    rewrite E. cbn [app].
    destruct (0 <? length (filter eligible results))%nat.
    + destruct (askEach_Asked host (filter eligible results) w3) as (w4 & E4 & A).
      rewrite E4. eexists. eexists. split; [reflexivity|].
      apply stays_trans with (1 := S2). apply stays_trans with (1 := S).
      apply stays_trans with (1 := Asked_stays _ _ _ _ A).
      now apply stays_record.
    + eexists. eexists. split; [reflexivity|].
      apply stays_trans with (1 := S2). apply stays_trans with (1 := S).
      rewrite record_record. now apply stays_record.
  - rewrite (checkUpdates_fatal host w e w1 H).
    eexists. eexists. split; [reflexivity|]. now apply stays_record.
  - unfold started, targetPath in H.
    cbv [checkUpdates try_catch bind process_cwd console_log console_error
         rl_close emit process_exit].
    rewrite H. eexists. eexists. split; [reflexivity|]. apply stays_refl.
Qed.

Lemma fatal_messages_differ (path path' : string) :
  noPathMessage path <> noManifestMessage path'.
Proof. unfold noPathMessage, noManifestMessage. cbn. discriminate. Qed.

Lemma checkPluginUpdates_chdir (host : Host) (path : string) (w : World) :
  fs_exists host path = true ->
  fs_exists host (path_join host path "config.xml") = true ->
  exists outcome w' rest,
    checkPluginUpdates host path w = (outcome, w') /\
    cwd w' = path /\
    trace w' =
      (trace w ++ EvChdir path :: EvExec "cordova plugin list" :: rest)%list /\
    chdirs rest = [].
Proof.
  intros H1 H2.
  destruct (exec_result host (trace (moved w path)) "cordova plugin list")
    as [output|msg] eqn:L.
  - destruct (checkPluginUpdates_listed host path w output H1 H2 L)
      as (results & w' & E & C).
    destruct (Checked_stays _ _ _ _ _ C) as [Hc (more & Ht & Hd)].
    exists (Return results), w', more. split; [exact E|].
    split; [exact Hc|]. split; [|exact Hd].
    rewrite Ht, record_moved. cbn [trace]. now rewrite <- app_assoc.
  - exists (Throw (mkError ("Failed to check plugin updates: " ++ msg))),
      (record (moved w path) [EvExec "cordova plugin list"]), [].
    split; [now apply checkPluginUpdates_listing_failed|].
    split; [reflexivity|]. split; [|reflexivity].
    now rewrite record_moved.
Qed.

(** C6: the check fails with its own error for each violated precondition,
    one for a path that does not exist and another one for a path without
    [config.xml], and it does so before anything else happens: no directory
    change, no listing, no registry lookup (the world is as it was).  On such
    an error the session prints the error, closes the prompt and exits with
    status 1, no child process having been started. *)
Theorem preconditions_fatal (host : Host) (w : World) :
  (forall path,
     fs_exists host path = false ->
     checkPluginUpdates host path w = (Throw (mkError (noPathMessage path)), w))
  /\ (forall path,
        fs_exists host path = true ->
        fs_exists host (path_join host path "config.xml") = false ->
        checkPluginUpdates host path w
          = (Throw (mkError (noManifestMessage path)), w))
  /\ (forall path path', noPathMessage path <> noManifestMessage path')
  /\ (fs_exists host (targetPath host w) = false ->
      checkUpdates host w =
      (Exit 1,
       record w [EvLog ("Checking plugins in project: " ++ targetPath host w);
                 EvError (fatalMessage (noPathMessage (targetPath host w)));
                 EvClose; EvExit 1%Z]))
  /\ (fs_exists host (targetPath host w) = true ->
      fs_exists host (path_join host (targetPath host w) "config.xml") = false ->
      checkUpdates host w =
      (Exit 1,
       record w [EvLog ("Checking plugins in project: " ++ targetPath host w);
                 EvError (fatalMessage (noManifestMessage (targetPath host w)));
                 EvClose; EvExit 1%Z])).
Proof.
  split; [|split; [|split; [|split]]].
  - intros path H. now apply checkPluginUpdates_no_path.
  - intros path H1 H2. now apply checkPluginUpdates_no_manifest.
  - exact fatal_messages_differ.
  - intros H.
    rewrite (checkUpdates_fatal host w (mkError (noPathMessage (targetPath host w)))
               (started host w)).
    + unfold started. now rewrite record_record.
    + now apply checkPluginUpdates_no_path.
  - intros H1 H2.
    rewrite (checkUpdates_fatal host w
               (mkError (noManifestMessage (targetPath host w))) (started host w)).
    + unfold started. now rewrite record_record.
    + now apply checkPluginUpdates_no_manifest.
Qed.

Lemma preconditions_fatal_witness :
  checkPluginUpdates (exampleHost false false "n") "/app" exampleWorld
    = (Throw (mkError (noPathMessage "/app")), exampleWorld)
  /\ checkPluginUpdates (exampleHost true false "n") "/app" exampleWorld
       = (Throw (mkError (noManifestMessage "/app")), exampleWorld)
  /\ commands (trace (snd (checkUpdates (exampleHost true false "n")
                             exampleWorld))) = []
  /\ exitStatus (fst (checkUpdates (exampleHost true false "n") exampleWorld))
     = 1%Z.
Proof.
  pose proof (preconditions_fatal (exampleHost false false "n") exampleWorld)
    as (Hpath & _).
  pose proof (preconditions_fatal (exampleHost true false "n") exampleWorld)
    as (_ & Hmanifest & _ & _ & Hsession).
  split; [apply Hpath; reflexivity|].
  split; [apply Hmanifest; reflexivity|].
  rewrite Hsession by reflexivity.
  split; reflexivity.
Defined.

(** C7: when the listing has been read, the checker pushes exactly one
    result per parsed plugin, in the order of the listing: the version data
    when the registry lookup of the plugin succeeds, and when it fails a
    result with the plugin's id, its current version and an error message,
    without [latestVersion] and [hasUpdate]; after a failed lookup the next
    plugin is looked up all the same, and the check returns its results. *)
Theorem checkPluginUpdates_one_result_each (host : Host) (path : string)
    (w : World) (output : string) :
  fs_exists host path = true ->
  fs_exists host (path_join host path "config.xml") = true ->
  exec_result host (trace (moved w path)) "cordova plugin list" = inl output ->
  exists results w',
    checkPluginUpdates host path w = (Return results, w') /\
    Checked host (record (moved w path) [EvExec "cordova plugin list"])
      (parsePluginList output) results w' /\
    length results = length (parsePluginList output) /\
    map plugin results = map id (parsePluginList output) /\
    map currentVersion results = map version (parsePluginList output).
Proof.
  intros H1 H2 L.
  destruct (checkPluginUpdates_listed host path w output H1 H2 L)
    as (results & w' & E & C).
  exists results, w'. split; [exact E|]. split; [exact C|].
  exact (Checked_results _ _ _ _ _ C).
Qed.

Lemma checkPluginUpdates_one_result_each_witness :
  fs_exists (exampleHost true true "n") "/app" = true /\
  fs_exists (exampleHost true true "n")
    (path_join (exampleHost true true "n") "/app" "config.xml") = true /\
  exists results w',
    checkPluginUpdates (exampleHost true true "n") "/app" exampleWorld
      = (Return results, w') /\
    Checked (exampleHost true true "n")
      (record (moved exampleWorld "/app") [EvExec "cordova plugin list"])
      (parsePluginList ("cordova-plugin-device 2.0.3 Device"
                        ++ String nl "> cordova-plugin-camera 6.0.0"))
      results w' /\
    length results =
      length (parsePluginList ("cordova-plugin-device 2.0.3 Device"
                               ++ String nl "> cordova-plugin-camera 6.0.0")) /\
    map plugin results =
      map id (parsePluginList ("cordova-plugin-device 2.0.3 Device"
                               ++ String nl "> cordova-plugin-camera 6.0.0")) /\
    map currentVersion results =
      map version (parsePluginList ("cordova-plugin-device 2.0.3 Device"
                                    ++ String nl "> cordova-plugin-camera 6.0.0")).
Proof.
  split; [reflexivity|]. split; [reflexivity|].
  apply (checkPluginUpdates_one_result_each (exampleHost true true "n") "/app"
           exampleWorld); reflexivity.
Defined.

(** C9: when the preconditions hold, the check changes the working
    directory to the project path before it starts the listing, and changes
    it no more: whether the check returns its results or fails on the
    listing, the working directory is the project path afterwards, and it
    still is when the session ends. *)
Theorem chdir_not_restored (host : Host) (path : string) (w : World) :
  fs_exists host path = true ->
  fs_exists host (path_join host path "config.xml") = true ->
  (exists outcome w' rest,
     checkPluginUpdates host path w = (outcome, w') /\
     cwd w' = path /\
     trace w' =
       (trace w ++ EvChdir path :: EvExec "cordova plugin list" :: rest)%list /\
     chdirs rest = [])
  /\ (path = targetPath host w ->
      exists outcome w',
        checkUpdates host w = (outcome, w') /\
        cwd w' = path /\
        chdirs (trace w') = (chdirs (trace w) ++ [path])%list).
Proof.
  intros H1 H2. split; [now apply checkPluginUpdates_chdir|].
  intros ->.
  destruct (checkPluginUpdates_chdir host (targetPath host w) (started host w)
              H1 H2) as (o1 & w1 & rest & E1 & Hc & Ht & Hd).
  destruct (checkUpdates_stays host w o1 w1 E1)
    as (o & w' & E & [Hc' (more & Ht' & Hd')]).
  exists o, w'. split; [exact E|]. split; [congruence|].
  rewrite Ht', Ht. cbn [started record trace].
  rewrite !chdirs_app. cbn [chdirs]. rewrite Hd, Hd'.
  now rewrite !app_nil_r.
Qed.

Lemma chdir_not_restored_witness :
  fs_exists (exampleHost true true "Y") "/app" = true /\
  fs_exists (exampleHost true true "Y")
    (path_join (exampleHost true true "Y") "/app" "config.xml") = true /\
  (exists outcome w' rest,
     checkPluginUpdates (exampleHost true true "Y") "/app" exampleWorld
       = (outcome, w') /\
     cwd w' = "/app" /\
     trace w' =
       (trace exampleWorld
        ++ EvChdir "/app" :: EvExec "cordova plugin list" :: rest)%list /\
     chdirs rest = [])
  /\ ("/app" = targetPath (exampleHost true true "Y") exampleWorld ->
      exists outcome w',
        checkUpdates (exampleHost true true "Y") exampleWorld = (outcome, w') /\
        cwd w' = "/app" /\
        chdirs (trace w') = (chdirs (trace exampleWorld) ++ ["/app"])%list).
Proof.
  split; [reflexivity|]. split; [reflexivity|].
  apply (chdir_not_restored (exampleHost true true "Y") "/app" exampleWorld);
    reflexivity.
Defined.

(* ================================================================== *)
(** ** The session from end to end *)

(** Two plugins installed, the registry lookup of the second one failing:
    the results hold one normal entry and one error entry. *)
Example checkPluginUpdates_example :
  fst (checkPluginUpdates (exampleHost true true "n") "/app" exampleWorld) =
  Return [ {| plugin := "cordova-plugin-device";
              currentVersion := "2.0.3";
              latestVersion := Some "2.1.0";
              hasUpdate := Some true;
              error := None |};
           {| plugin := "cordova-plugin-camera";
              currentVersion := "6.0.0";
              latestVersion := None;
              hasUpdate := None;
              error := Some "Failed to check for updates" |} ].
Proof. vm_compute. reflexivity. Qed.

(** The operator answers "n": the one outdated plugin is asked about, and no
    remove or add is started. *)
Example checkUpdates_declined :
  let w' := snd (checkUpdates (exampleHost true true "n") exampleWorld) in
  commands (trace w') =
    [ "cordova plugin list";
      "npm view cordova-plugin-device version";
      "npm view cordova-plugin-camera version" ] /\
  length (questions (trace w')) = 1 /\
  exitStatus (fst (checkUpdates (exampleHost true true "n") exampleWorld)) = 0%Z.
Proof. repeat split; vm_compute; reflexivity. Qed.

(** The operator answers "Y": the plugin is removed, then added; the add
    fails on this host, and the session still ends normally, in the project
    directory. *)
Example checkUpdates_accepted :
  let w' := snd (checkUpdates (exampleHost true true "Y") exampleWorld) in
  commands (trace w') =
    [ "cordova plugin list";
      "npm view cordova-plugin-device version";
      "npm view cordova-plugin-camera version";
      "cordova plugin remove cordova-plugin-device --force";
      "cordova plugin add cordova-plugin-device" ] /\
  cwd w' = "/app" /\
  exitStatus (fst (checkUpdates (exampleHost true true "Y") exampleWorld)) = 0%Z.
Proof. repeat split; vm_compute; reflexivity. Qed.

(* ================================================================== *)
(** ** Version Comparator: further properties *)

Lemma num_lt_irrefl (a : number) : num_lt a a = false.
Proof.
  destruct a as [|[|]|x]; simpl; try reflexivity.
  now rewrite (proj1 (Qeq_alt x x) (Qeq_refl x)).
Qed.

Lemma undecided_refl (v : string) (i : nat) : undecided v v i.
Proof. unfold undecided, num_gt. now rewrite num_lt_irrefl. Qed.

Lemma undecided_sym (a b : string) (i : nat) :
  undecided a b i -> undecided b a i.
Proof. unfold undecided, num_gt. tauto. Qed.

(** The loop reads the components it is asked to compare and no other. *)
Lemma compareFrom_ext (cp lp cp' lp' : list number) (n i : nat) :
  (forall j, i <= j < i + n ->
     toNumber (nth_error cp j) = toNumber (nth_error cp' j) /\
     toNumber (nth_error lp j) = toNumber (nth_error lp' j)) ->
  compareFrom cp lp i n = compareFrom cp' lp' i n.
Proof.
  revert i. induction n as [|n IH]; intros i H; [reflexivity|].
  cbn [compareFrom]. destruct (H i) as [Hc Hl]; [lia|].
  rewrite Hc, Hl. rewrite (IH (S i)); [reflexivity|].
  intros j Hj. apply H. lia.
Qed.

Lemma split_length_app (sep : ascii) (a b : string) :
  length (split sep (a ++ String sep b))
  = length (split sep a) + length (split sep b).
Proof. now rewrite split_app, length_app. Qed.

Lemma split_length_pos (sep : ascii) (s : string) : 1 <= length (split sep s).
Proof. destruct (split_cons sep s) as (seg & segs & ->). simpl. lia. Qed.

Lemma component_app (v extra : string) (i : nat) :
  i < length (split "." v) ->
  component (v ++ String "." extra) i = component v i.
Proof.
  intros H. unfold component. rewrite split_app, map_app.
  rewrite nth_error_app1 by now rewrite length_map. reflexivity.
Qed.

Lemma three_segments_not_unknown (v : string) :
  3 <= length (split "." v) -> v <> "unknown".
Proof. intros H ->. cbn in H. lia. Qed.

(** X1: a version compared with itself never has an update, well formed
    or not, the sentinel ["unknown"] apart. *)
Theorem compareVersions_irreflexive (v : string) :
  v <> "unknown" -> compareVersions v v = false.
Proof.
  intros H. rewrite (compareVersions_loop v v H).
  apply loop_all_undecided. intros j _. apply undecided_refl.
Qed.

Lemma compareVersions_irreflexive_witness :
  "1.2.x" <> "unknown" /\ compareVersions "1.2.x" "1.2.x" = false.
Proof.
  split; [discriminate|].
  apply (compareVersions_irreflexive "1.2.x"). discriminate.
Defined.

(** X2: two versions are never each an update of the other: when
    [latest] is an update of [current], [current] is none of [latest]
    (neither being the sentinel). *)
Theorem compareVersions_asymmetric (current latest : string) :
  current <> "unknown" -> latest <> "unknown" ->
  compareVersions current latest = true ->
  compareVersions latest current = false.
Proof.
  intros Hc Hl H.
  rewrite (compareVersions_loop current latest Hc) in H.
  apply loop_true_iff in H. destruct H as (k & Hk & G & Hu).
  rewrite (compareVersions_loop latest current Hl).
  replace 3 with (k + S (2 - k)) by lia.
  apply (loop_lt latest current k 0).
  - intros j Hj. apply undecided_sym, Hu. lia.
  - exact G.
Qed.

Lemma compareVersions_asymmetric_witness :
  "1.2.3" <> "unknown" /\ "1.10.0" <> "unknown" /\
  compareVersions "1.2.3" "1.10.0" = true /\
  compareVersions "1.10.0" "1.2.3" = false.
Proof.
  split; [discriminate|]. split; [discriminate|]. split; [reflexivity|].
  apply (compareVersions_asymmetric "1.2.3" "1.10.0");
    [discriminate | discriminate | reflexivity].
Defined.

(** X3: only the first three segments count: what follows the third
    segment of [current], or of [latest], changes nothing. *)
Theorem compareVersions_extra_segments (current latest extra : string) :
  (3 <= length (split "." current) ->
   compareVersions (current ++ "." ++ extra) latest
   = compareVersions current latest)
  /\ (3 <= length (split "." latest) ->
      compareVersions current (latest ++ "." ++ extra)
      = compareVersions current latest).
Proof.
  change ("." ++ extra) with (String "." extra). split; intros H.
  - assert (H' : 3 <= length (split "." (current ++ String "." extra))).
    { rewrite split_length_app. lia. }
    rewrite (compareVersions_loop _ latest (three_segments_not_unknown _ H')).
    rewrite (compareVersions_loop _ latest (three_segments_not_unknown _ H)).
    apply compareFrom_ext. intros j Hj. split; [|reflexivity].
    apply (component_app current extra j). lia.
  - unfold compareVersions. destruct (current =? "unknown"); [reflexivity|].
    apply compareFrom_ext. intros j Hj. split; [reflexivity|].
    apply (component_app latest extra j). lia.
Qed.

Lemma compareVersions_extra_segments_witness :
  3 <= length (split "." "1.2.3") /\
  compareVersions "1.2.3.4" "1.2.3.9" = compareVersions "1.2.3" "1.2.3".
Proof.
  split; [repeat constructor|].
  transitivity (compareVersions "1.2.3" "1.2.3.9").
  - apply (proj1 (compareVersions_extra_segments "1.2.3" "1.2.3.9" "4")).
    repeat constructor.
  - apply (proj2 (compareVersions_extra_segments "1.2.3" "1.2.3" "9")).
    repeat constructor.
Defined.

(* ================================================================== *)
(** ** Plugin List Parser: further properties *)

Lemma occurs_app (c : ascii) (a b : string) :
  occurs c (a ++ b) = occurs c a || occurs c b.
Proof.
  induction a as [|x a IH]; simpl; [reflexivity|].
  now rewrite IH, orb_assoc.
Qed.

Lemma split_no_sep (sep : ascii) (s : string) :
  occurs sep s = false -> split sep s = [s].
Proof.
  induction s as [|c s IH]; simpl; [reflexivity|].
  intros H. apply orb_false_iff in H. destruct H as [H1 H2].
  now rewrite H1, (IH H2).
Qed.

Lemma occurs_stripMarkers (c : ascii) (line : string) :
  occurs c line = false -> occurs c (stripMarkers line) = false.
Proof.
  induction line as [|x line IH]; simpl; [reflexivity|].
  intros H. destruct (Ascii.eqb x ">" || is_space x); [|exact H].
  apply orb_false_iff in H. now apply IH.
Qed.

Lemma occurs_upTo (c sep : ascii) (s : string) :
  occurs c s = false -> occurs c (upTo sep s) = false.
Proof.
  induction s as [|x s IH]; simpl; [reflexivity|].
  intros H. apply orb_false_iff in H. destruct H as [H1 H2].
  destruct (Ascii.eqb x sep); simpl; [reflexivity|].
  now rewrite H1, (IH H2).
Qed.

Lemma occurs_upTo_sep (sep : ascii) (s : string) :
  occurs sep (upTo sep s) = false.
Proof.
  induction s as [|x s IH]; simpl; [reflexivity|].
  destruct (Ascii.eqb x sep) eqn:E; simpl; [reflexivity|].
  now rewrite E, IH.
Qed.

Lemma occurs_after (c sep : ascii) (s r : string) :
  after sep s = Some r -> occurs c s = false -> occurs c r = false.
Proof.
  induction s as [|x s IH]; simpl; [discriminate|].
  intros H Ho. apply orb_false_iff in Ho. destruct Ho as [_ Ho].
  destruct (Ascii.eqb x sep).
  - now injection H as <-.
  - now apply IH.
Qed.

Lemma parseLine_clean (line : string) :
  occurs nl line = false ->
  version (parseLine line) <> "" /\
  occurs " " (id (parseLine line)) = false /\
  occurs nl (id (parseLine line)) = false /\
  occurs " " (version (parseLine line)) = false /\
  occurs nl (version (parseLine line)) = false.
Proof.
  intros H. rewrite parseLine_fields. unfold idAndSecondField. cbn [id version].
  pose proof (occurs_stripMarkers nl line H) as Hc.
  split; [|split; [|split; [|split]]].
  - destruct (after " " (stripMarkers line)) as [r|]; [|discriminate].
    destruct (upTo " " r =? "") eqn:E; [discriminate|].
    now apply String.eqb_neq in E.
  - apply occurs_upTo_sep.
  - now apply occurs_upTo.
  - destruct (after " " (stripMarkers line)) as [r|]; [|reflexivity].
    destruct (upTo " " r =? ""); [reflexivity | apply occurs_upTo_sep].
  - destruct (after " " (stripMarkers line)) as [r|] eqn:A; [|reflexivity].
    destruct (upTo " " r =? ""); [reflexivity|].
    apply occurs_upTo. now apply (occurs_after nl " " _ r A).
Qed.

(** X4: in every record the parser returns, the version is not empty, and
    neither the id nor the version holds a space or a newline. *)
Theorem parsePluginList_fields_clean (text : string) :
  Forall (fun p =>
            version p <> "" /\
            occurs " " (id p) = false /\ occurs nl (id p) = false /\
            occurs " " (version p) = false /\ occurs nl (version p) = false)
         (parsePluginList text).
Proof.
  rewrite parsePluginList_lines. apply Forall_forall. intros p Hp.
  apply filter_In in Hp. destruct Hp as [Hp _].
  apply in_map_iff in Hp. destruct Hp as (line & <- & Hl).
  apply parseLine_clean.
  exact (proj1 (Forall_forall _ _) (occurs_split nl text) line Hl).
Qed.

Lemma blank_split (text : string) :
  blank text = true -> Forall (fun line => blank line = true) (split nl text).
Proof.
  induction text as [|c text IH]; simpl.
  - intros _. now constructor.
  - intros H. apply andb_true_iff in H. destruct H as [Hc Ht].
    specialize (IH Ht). destruct (Ascii.eqb c nl).
    + now constructor.
    + destruct (split nl text) as [|seg segs]; inversion IH; subst;
        constructor; simpl; try rewrite Hc; auto.
Qed.

Lemma parsePluginList_blank (text : string) :
  blank text = true -> parsePluginList text = [].
Proof.
  intros H. rewrite parsePluginList_lines.
  induction (blank_split text H) as [|line lines Hb _ IH]; [reflexivity|].
  cbn [map filter]. now rewrite (parseLine_blank line Hb).
Qed.

(** X5: a text made of white space only (spaces, tabs, empty lines) has no
    plugin, and such a stretch between two texts changes nothing to what is
    parsed from them. *)
Theorem parsePluginList_blank_gap (gap : string) :
  blank gap = true ->
  parsePluginList gap = [] /\
  forall before_ after_ : string,
    parsePluginList (before_ ++ String nl gap ++ String nl after_)
    = (parsePluginList before_ ++ parsePluginList after_)%list.
Proof.
  intros H. split; [now apply parsePluginList_blank|].
  intros a b. change (String nl gap ++ String nl b)
    with (String nl (gap ++ String nl b)).
  now rewrite !parsePluginList_app, (parsePluginList_blank gap H).
Qed.

Lemma parsePluginList_blank_gap_witness :
  blank (String "009" (String nl "  ")) = true /\
  parsePluginList (String "009" (String nl "  ")) = [] /\
  forall before_ after_ : string,
    parsePluginList
      (before_ ++ String nl (String "009" (String nl "  ")) ++ String nl after_)
    = (parsePluginList before_ ++ parsePluginList after_)%list.
Proof.
  split; [reflexivity|].
  apply (parsePluginList_blank_gap (String "009" (String nl "  "))).
  reflexivity.
Defined.

Lemma stripMarkers_app (marker s : string) :
  allMarkers marker = true -> stripMarkers (marker ++ s) = stripMarkers s.
Proof.
  induction marker as [|c marker IH]; simpl; [reflexivity|].
  intros H. apply andb_true_iff in H. destruct H as [Hc Hm].
  unfold isMarker in Hc. now rewrite Hc, (IH Hm).
Qed.

Lemma upTo_app (sep : ascii) (a b : string) :
  occurs sep a = false -> upTo sep (a ++ b) = a ++ upTo sep b.
Proof.
  induction a as [|c a IH]; simpl; [reflexivity|].
  intros H. apply orb_false_iff in H. destruct H as [H1 H2].
  now rewrite H1, (IH H2).
Qed.

Lemma after_app (sep : ascii) (a b : string) :
  occurs sep a = false -> after sep (a ++ String sep b) = Some b.
Proof.
  induction a as [|c a IH]; simpl.
  - now rewrite Ascii.eqb_refl.
  - intros H. apply orb_false_iff in H. destruct H as [H1 H2].
    now rewrite H1, (IH H2).
Qed.

Lemma append_empty_r (s : string) : s ++ "" = s.
Proof. induction s as [|c s IH]; simpl; [reflexivity | now rewrite IH]. Qed.

Lemma parseLine_listed (marker id_ version_ tail : string) :
  wellFormedEntry marker id_ version_ tail = true ->
  parseLine (listedLine marker id_ version_ tail)
    = {| id := id_; version := version_ |} /\
  keepPlugin {| id := id_; version := version_ |} = true /\
  occurs nl (listedLine marker id_ version_ tail) = false.
Proof.
  unfold wellFormedEntry. rewrite !andb_true_iff, !negb_true_iff.
  intros ((((((((((Hm & Hmn) & Hi0) & His) & Hin) & Hu) & Hv) & Hvs) & Hvn)
            & Ht0) & Htn).
  assert (Hup : upTo " " tail = "").
  { destruct tail as [|c t]; [reflexivity|]. simpl. now rewrite Ht0. }
  split; [|split].
  - rewrite parseLine_fields. unfold listedLine, idAndSecondField.
    rewrite (stripMarkers_app marker _ Hm).
    change (" " ++ version_ ++ tail) with (String " " (version_ ++ tail)).
    assert (Hs : stripMarkers (id_ ++ String " " (version_ ++ tail))
                 = id_ ++ String " " (version_ ++ tail)).
    { destruct id_ as [|c r]; [discriminate|]. cbn [append stripMarkers].
      unfold isMarker in Hi0. apply negb_true_iff in Hi0. now rewrite Hi0. }
    rewrite Hs, (upTo_app " " id_ _ His), (after_app " " id_ _ His).
    cbn [upTo]. rewrite Ascii.eqb_refl, append_empty_r.
    rewrite (upTo_app " " version_ tail Hvs), Hup, append_empty_r.
    unfold truthy in Hv. apply negb_true_iff in Hv. now rewrite Hv.
  - unfold keepPlugin, truthy. cbn [id]. rewrite Hu.
    destruct id_; [discriminate | reflexivity].
  - unfold listedLine.
    change (" " ++ version_ ++ tail) with (String " " (version_ ++ tail)).
    rewrite !occurs_app. cbn [occurs]. rewrite occurs_app.
    now rewrite Hmn, Hin, Hvn, Htn.
Qed.

(** X6: a well-formed line of the listing is read back as it was written:
    alone, or at the head of a text, it gives the record of its id and its
    version, markers and whatever follows the version left out, in front of
    the records of the rest of the text. *)
Theorem parsePluginList_listed (marker id_ version_ tail : string) :
  wellFormedEntry marker id_ version_ tail = true ->
  parsePluginList (listedLine marker id_ version_ tail)
    = [ {| id := id_; version := version_ |} ] /\
  forall rest : string,
    parsePluginList (listedLine marker id_ version_ tail ++ String nl rest)
    = {| id := id_; version := version_ |} :: parsePluginList rest.
Proof.
  intros H. destruct (parseLine_listed marker id_ version_ tail H)
    as (Hp & Hk & Hn).
  assert (E : parsePluginList (listedLine marker id_ version_ tail)
              = [ {| id := id_; version := version_ |} ]).
  { rewrite parsePluginList_lines, (split_no_sep nl _ Hn).
    cbn [map filter]. now rewrite Hp, Hk. }
  split; [exact E|].
  intros rest. now rewrite parsePluginList_app, E.
Qed.

Lemma parsePluginList_listed_witness :
  wellFormedEntry "> " "cordova-plugin-device" "2.0.3" " Device" = true /\
  parsePluginList "> cordova-plugin-device 2.0.3 Device"
    = [ {| id := "cordova-plugin-device"; version := "2.0.3" |} ] /\
  forall rest : string,
    parsePluginList
      (listedLine "> " "cordova-plugin-device" "2.0.3" " Device"
       ++ String nl rest)
    = {| id := "cordova-plugin-device"; version := "2.0.3" |}
      :: parsePluginList rest.
Proof.
  split; [reflexivity|].
  apply (parsePluginList_listed "> " "cordova-plugin-device" "2.0.3" " Device").
  reflexivity.
Defined.

(* ================================================================== *)
(** ** Update Checker: further properties *)

Lemma commands_app (a b : list Event) :
  commands (a ++ b) = (commands a ++ commands b)%list.
Proof.
  induction a as [|e a IH]; [reflexivity|].
  destruct e; simpl; now rewrite IH.
Qed.

Lemma guard_keepPlugin (p : InstalledPlugin) :
  negb (truthy (id p)) || (id p =? "undefined") = negb (keepPlugin p).
Proof.
  unfold keepPlugin. rewrite negb_andb. now rewrite negb_involutive.
Qed.

Lemma bind_ext {A B} (m : M A) (k k' : A -> M B) (w : World) :
  (forall a w', k a w' = k' a w') -> bind m k w = bind m k' w.
Proof.
  intros H. unfold bind. destruct (m w) as [[a | e | c] w']; auto.
Qed.

Lemma checkEach_filter (host : Host) (plugins : list InstalledPlugin) :
  forall (updateResults : list UpdateResult) (w : World),
  checkEach host plugins updateResults w
  = checkEach host (filter keepPlugin plugins) updateResults w.
Proof.
  induction plugins as [|p rest IH]; intros acc w; [reflexivity|].
  cbn [filter]. destruct (keepPlugin p) eqn:K.
  - cbn [checkEach]. apply bind_ext. exact IH.
  - cbn [checkEach]. rewrite guard_keepPlugin, K.
    cbv [bind try_catch ret negb]. apply IH.
Qed.

Lemma Checked_questions (host : Host) (w : World)
    (plugins : list InstalledPlugin) (results : list UpdateResult) (w' : World) :
  Checked host w plugins results w' ->
  questions (trace w') = questions (trace w).
Proof.
  induction 1 as [w | w p rest out results w' _ _ IH
                    | w p rest msg results w' _ _ IH];
    [reflexivity | |]; rewrite IH; cbn [record trace];
    rewrite questions_app; apply app_nil_r.
Qed.

Lemma Checked_commands (host : Host) (w : World)
    (plugins : list InstalledPlugin) (results : list UpdateResult) (w' : World) :
  Checked host w plugins results w' ->
  commands (trace w') = (commands (trace w) ++ map lookupCommand plugins)%list.
Proof.
  induction 1 as [w | w p rest out results w' _ _ IH
                    | w p rest msg results w' _ _ IH].
  - now rewrite app_nil_r.
  - rewrite IH. cbn [record trace map]. rewrite commands_app.
    now rewrite <- app_assoc.
  - rewrite IH. cbn [record trace map]. rewrite commands_app.
    now rewrite <- app_assoc.
Qed.

(** On the results of the checker, having an update is all it takes to be
    asked about: a result with an error has no [hasUpdate]. *)
Lemma Checked_eligible (host : Host) (w : World)
    (plugins : list InstalledPlugin) (results : list UpdateResult) (w' : World) :
  Checked host w plugins results w' ->
  filter eligible results = filter wantsUpdate results.
Proof.
  induction 1 as [w | w p rest out results w' _ _ IH
                    | w p rest msg results w' _ _ IH];
    [reflexivity | |]; cbn [filter]; rewrite IH; reflexivity.
Qed.

Lemma checkPluginUpdates_cases (host : Host) (path : string) (w : World) :
  (fs_exists host path = false /\
   checkPluginUpdates host path w = (Throw (mkError (noPathMessage path)), w))
  \/ (fs_exists host path = true /\
      fs_exists host (path_join host path "config.xml") = false /\
      checkPluginUpdates host path w
        = (Throw (mkError (noManifestMessage path)), w))
  \/ (fs_exists host path = true /\
      fs_exists host (path_join host path "config.xml") = true /\
      exists msg,
        exec_result host (trace (moved w path)) "cordova plugin list" = inr msg /\
        checkPluginUpdates host path w
          = (Throw (mkError ("Failed to check plugin updates: " ++ msg)),
             record (moved w path) [EvExec "cordova plugin list"]))
  \/ (fs_exists host path = true /\
      fs_exists host (path_join host path "config.xml") = true /\
      exists output results w',
        exec_result host (trace (moved w path)) "cordova plugin list"
          = inl output /\
        checkPluginUpdates host path w = (Return results, w') /\
        Checked host (record (moved w path) [EvExec "cordova plugin list"])
          (parsePluginList output) results w').
Proof.
  destruct (fs_exists host path) eqn:H1.
  2:{ left. split; [reflexivity|]. now apply checkPluginUpdates_no_path. }
  destruct (fs_exists host (path_join host path "config.xml")) eqn:H2.
  2:{ right; left. split; [reflexivity|]. split; [reflexivity|].
      now apply checkPluginUpdates_no_manifest. }
  destruct (exec_result host (trace (moved w path)) "cordova plugin list")
    as [output|msg] eqn:L.
  - right; right; right. split; [reflexivity|]. split; [reflexivity|].
    destruct (checkPluginUpdates_listed host path w output H1 H2 L)
      as (results & w' & E & C).
    now exists output, results, w'.
  - right; right; left. split; [reflexivity|]. split; [reflexivity|].
    exists msg. split; [reflexivity|].
    now apply checkPluginUpdates_listing_failed.
Qed.

(** X7: the check can end in four ways only.  It returns its results when
    the path and the manifest are there and the listing works; it throws for
    a missing path, for a missing manifest, or for a failed listing, and then
    no registry lookup has been started.  It never ends the process, and a
    failed registry lookup is never among the reasons to throw. *)
Theorem checkPluginUpdates_outcomes (host : Host) (path : string) (w : World)
    (o : Outcome (list UpdateResult)) (w' : World) :
  checkPluginUpdates host path w = (o, w') ->
  match o with
  | Return results =>
      fs_exists host path = true /\
      fs_exists host (path_join host path "config.xml") = true /\
      exists output,
        exec_result host (trace (moved w path)) "cordova plugin list"
          = inl output /\
        Checked host (record (moved w path) [EvExec "cordova plugin list"])
          (parsePluginList output) results w'
  | Throw e =>
      (fs_exists host path = false /\
       e = mkError (noPathMessage path) /\ w' = w)
      \/ (fs_exists host (path_join host path "config.xml") = false /\
          e = mkError (noManifestMessage path) /\ w' = w)
      \/ (exists msg,
            exec_result host (trace (moved w path)) "cordova plugin list"
              = inr msg /\
            e = mkError ("Failed to check plugin updates: " ++ msg) /\
            w' = record (moved w path) [EvExec "cordova plugin list"])
  | Exit _ => False
  end.
Proof.
  intros H.
  destruct (checkPluginUpdates_cases host path w)
    as [(H1 & E) | [(H1 & H2 & E) | [(H1 & H2 & msg & L & E)
       | (H1 & H2 & output & results & w1 & L & E & C)]]];
    rewrite E in H; injection H as <- <-.
  - left. auto.
  - right; left. auto.
  - right; right. exists msg. auto.
  - split; [exact H1|]. split; [exact H2|]. now exists output.
Qed.

Lemma checkPluginUpdates_outcomes_witness :
  checkPluginUpdates offlineHost "/home" exampleWorld
    = (Throw (mkError "Failed to check plugin updates: Command failed: cordova plugin list"),
       record (moved exampleWorld "/home") [EvExec "cordova plugin list"])
  /\ ((fs_exists offlineHost "/home" = false /\
       mkError "Failed to check plugin updates: Command failed: cordova plugin list"
         = mkError (noPathMessage "/home") /\
       record (moved exampleWorld "/home") [EvExec "cordova plugin list"]
         = exampleWorld)
      \/ (fs_exists offlineHost (path_join offlineHost "/home" "config.xml")
            = false /\
          mkError "Failed to check plugin updates: Command failed: cordova plugin list"
            = mkError (noManifestMessage "/home") /\
          record (moved exampleWorld "/home") [EvExec "cordova plugin list"]
            = exampleWorld)
      \/ (exists msg,
            exec_result offlineHost (trace (moved exampleWorld "/home"))
              "cordova plugin list" = inr msg /\
            mkError "Failed to check plugin updates: Command failed: cordova plugin list"
              = mkError ("Failed to check plugin updates: " ++ msg) /\
            record (moved exampleWorld "/home") [EvExec "cordova plugin list"]
              = record (moved exampleWorld "/home")
                  [EvExec "cordova plugin list"])).
Proof.
  split; [reflexivity|].
  exact (checkPluginUpdates_outcomes offlineHost "/home" exampleWorld
           (Throw (mkError "Failed to check plugin updates: Command failed: cordova plugin list"))
           (record (moved exampleWorld "/home") [EvExec "cordova plugin list"])
           eq_refl).
Defined.

(** X8: once the listing is read, the commands the check starts are the
    listing and then one registry lookup per parsed plugin, in the order of
    the listing, whether lookups fail or not; the check asks the operator
    nothing. *)
Theorem checkPluginUpdates_commands (host : Host) (path : string)
    (w : World) (output : string) :
  fs_exists host path = true ->
  fs_exists host (path_join host path "config.xml") = true ->
  exec_result host (trace (moved w path)) "cordova plugin list" = inl output ->
  exists results w',
    checkPluginUpdates host path w = (Return results, w') /\
    commands (trace w') =
      (commands (trace w)
       ++ "cordova plugin list" :: map lookupCommand (parsePluginList output))%list /\
    questions (trace w') = questions (trace w).
Proof.
  intros H1 H2 L.
  destruct (checkPluginUpdates_listed host path w output H1 H2 L)
    as (results & w' & E & C).
  exists results, w'. split; [exact E|]. split.
  - rewrite (Checked_commands _ _ _ _ _ C), record_moved. cbn [trace].
    rewrite commands_app. cbn [commands]. now rewrite <- app_assoc.
  - rewrite (Checked_questions _ _ _ _ _ C), record_moved. cbn [trace].
    rewrite questions_app. apply app_nil_r.
Qed.

Lemma checkPluginUpdates_commands_witness :
  fs_exists (exampleHost true true "n") "/app" = true /\
  fs_exists (exampleHost true true "n")
    (path_join (exampleHost true true "n") "/app" "config.xml") = true /\
  exists results w',
    checkPluginUpdates (exampleHost true true "n") "/app" exampleWorld
      = (Return results, w') /\
    commands (trace w') =
      (commands (trace exampleWorld)
       ++ "cordova plugin list"
          :: map lookupCommand
               (parsePluginList
                  ("cordova-plugin-device 2.0.3 Device"
                   ++ String nl "> cordova-plugin-camera 6.0.0")))%list /\
    questions (trace w') = questions (trace exampleWorld).
Proof.
  split; [reflexivity|]. split; [reflexivity|].
  apply (checkPluginUpdates_commands (exampleHost true true "n") "/app"
           exampleWorld); reflexivity.
Defined.

(** X9: the loop of the checker skips the plugins whose id is empty or
    ["undefined"], with no lookup and no result for them, gives one result
    for each of the others, and never throws, whatever list it is given. *)
Theorem checkEach_usable_ids (host : Host) (plugins : list InstalledPlugin)
    (updateResults : list UpdateResult) (w : World) :
  exists results w',
    checkEach host plugins updateResults w
      = (Return (updateResults ++ results)%list, w') /\
    Checked host w (filter keepPlugin plugins) results w' /\
    length results = length (filter keepPlugin plugins).
Proof.
  rewrite checkEach_filter.
  assert (K : Forall (fun p => keepPlugin p = true) (filter keepPlugin plugins)).
  { apply Forall_forall. intros p Hp. now apply filter_In in Hp. }
  destruct (checkEach_Checked host _ K updateResults w) as (results & w' & E & C).
  exists results, w'. split; [exact E|]. split; [exact C|].
  exact (proj1 (Checked_results _ _ _ _ _ C)).
Qed.

(* ================================================================== *)
(** ** Interactive Updater and Session Driver: further properties *)

Lemma questions_map_EvLog (texts : list string) :
  questions (map EvLog texts) = [].
Proof. induction texts as [|t texts IH]; [reflexivity | exact IH]. Qed.

Lemma commands_map_EvLog (texts : list string) :
  commands (map EvLog texts) = [].
Proof. induction texts as [|t texts IH]; [reflexivity | exact IH]. Qed.

Lemma report_logs (results : list UpdateResult) :
  forall (pluginsToUpdate : list UpdateResult) (w : World),
  exists texts,
    report results pluginsToUpdate w
      = (Return (pluginsToUpdate ++ filter eligible results)%list,
         record w (map EvLog texts)) /\
    length texts = length results.
Proof.
  induction results as [|r rest IH]; intros acc w.
  - exists []. cbn. rewrite app_nil_r. split; [|reflexivity].
    unfold record. cbn. rewrite app_nil_r. now destruct w.
  - cbn [report filter]. unfold eligible at 1.
    destruct (hasError r) eqn:He; cbn [negb andb].
    + cbv [bind console_log emit].
      match goal with |- context [record w [EvLog ?t]] =>
        destruct (IH acc (record w [EvLog t])) as (texts & E & L);
        exists (t :: texts) end.
      split; [|cbn [length]; now rewrite L].
      rewrite E, record_record. reflexivity.
    + cbv [bind console_log emit].
      destruct (wantsUpdate r) eqn:Hu.
      * match goal with |- context [record w [EvLog ?t]] =>
          destruct (IH (acc ++ [r])%list (record w [EvLog t]))
            as (texts & E & L);
          exists (t :: texts) end.
        split; [|cbn [length]; now rewrite L].
        rewrite E, record_record, <- app_assoc. reflexivity.
      * match goal with |- context [record w [EvLog ?t]] =>
          destruct (IH acc (record w [EvLog t])) as (texts & E & L);
          exists (t :: texts) end.
        split; [|cbn [length]; now rewrite L].
        rewrite E, record_record. reflexivity.
Qed.

(** X10: the report prints one text per result and does nothing else (no
    prompt, no command), and it hands on, in order, exactly the results
    that have no error and have an update. *)
Theorem report_one_text_each (results pluginsToUpdate : list UpdateResult)
    (w : World) :
  exists texts w',
    report results pluginsToUpdate w
      = (Return (pluginsToUpdate ++ filter eligible results)%list, w') /\
    trace w' = (trace w ++ map EvLog texts)%list /\
    length texts = length results /\
    cwd w' = cwd w /\
    questions (trace w') = questions (trace w) /\
    commands (trace w') = commands (trace w).
Proof.
  destruct (report_logs results pluginsToUpdate w) as (texts & E & L).
  exists texts, (record w (map EvLog texts)).
  split; [exact E|]. split; [reflexivity|]. split; [exact L|].
  split; [reflexivity|]. cbn [record trace]. split.
  - rewrite questions_app, questions_map_EvLog. apply app_nil_r.
  - rewrite commands_app, commands_map_EvLog. apply app_nil_r.
Qed.

(** The session once the check has returned results none of which is to
    be asked about. *)
Lemma checkUpdates_nothing_eligible (host : Host) (w : World)
    (results : list UpdateResult) (w1 : World) :
  checkPluginUpdates host (targetPath host w) (started host w)
    = (Return results, w1) ->
  filter eligible results = [] ->
  exists texts,
    length texts = length results /\
    checkUpdates host w =
    (Return tt,
     record (record w1 (EvLog reportHeader :: map EvLog texts))
       [EvLog allUpToDate; EvClose]).
Proof.
  intros H F. unfold started, targetPath in H.
  destruct (report_logs results [] (record w1 [EvLog reportHeader]))
    as (texts & E & L).
  exists texts. split; [exact L|].
  rewrite record_record in E. cbn [app] in E. unfold reportHeader in E.
  cbv [checkUpdates try_catch bind process_cwd console_log console_error
       rl_close emit process_exit].
  rewrite H, E, F.
  cbn [length Nat.ltb Nat.leb]. now rewrite record_record.
Qed.

Lemma checkPluginUpdates_returned (host : Host) (path : string) (w : World)
    (results : list UpdateResult) (w1 : World) :
  checkPluginUpdates host path w = (Return results, w1) ->
  exists output,
    Checked host (record (moved w path) [EvExec "cordova plugin list"])
      (parsePluginList output) results w1.
Proof.
  intros H.
  destruct (checkPluginUpdates_cases host path w)
    as [(_ & E) | [(_ & _ & E) | [(_ & _ & msg & _ & E)
       | (_ & _ & output & results' & w' & _ & E & C)]]];
    rewrite E in H; try discriminate H.
  injection H as <- <-. now exists output.
Qed.

(** X11: when the listing command fails, the session is over at once: the
    working directory has been changed, no registry lookup is started and
    nobody is asked anything; the error is printed, the prompt is closed and
    the process exits with status 1. *)
Theorem listing_failure_fatal (host : Host) (w : World) (msg : string) :
  fs_exists host (targetPath host w) = true ->
  fs_exists host (path_join host (targetPath host w) "config.xml") = true ->
  exec_result host
    (trace w ++ [EvLog ("Checking plugins in project: " ++ targetPath host w);
                 EvChdir (targetPath host w)])
    "cordova plugin list" = inr msg ->
  checkUpdates host w =
  (Exit 1,
   {| cwd := targetPath host w;
      trace :=
        trace w
        ++ [EvLog ("Checking plugins in project: " ++ targetPath host w);
            EvChdir (targetPath host w);
            EvExec "cordova plugin list";
            EvError (fatalMessage ("Failed to check plugin updates: " ++ msg));
            EvClose; EvExit 1%Z] |}).
Proof.
  intros H1 H2 L.
  assert (L' : exec_result host (trace (moved (started host w) (targetPath host w)))
                 "cordova plugin list" = inr msg).
  { cbn [moved started record trace]. rewrite <- app_assoc. exact L. }
  rewrite (checkUpdates_fatal host w _ _
             (checkPluginUpdates_listing_failed host _ _ msg H1 H2 L')).
  unfold started, moved, record. cbn [cwd trace message]. f_equal. f_equal.
  rewrite <- !app_assoc. reflexivity.
Qed.

Lemma listing_failure_fatal_witness :
  fs_exists offlineHost (targetPath offlineHost exampleWorld) = true /\
  fs_exists offlineHost
    (path_join offlineHost (targetPath offlineHost exampleWorld) "config.xml")
    = true /\
  commands (trace (snd (checkUpdates offlineHost exampleWorld)))
    = ["cordova plugin list"] /\
  exitStatus (fst (checkUpdates offlineHost exampleWorld)) = 1%Z.
Proof.
  split; [reflexivity|]. split; [reflexivity|].
  rewrite (listing_failure_fatal offlineHost exampleWorld
             "Command failed: cordova plugin list" eq_refl eq_refl eq_refl).
  split; reflexivity.
Defined.

Lemma Checked_found_updates (host : Host) (w : World)
    (plugins : list InstalledPlugin) (results : list UpdateResult) (w' : World) :
  Checked host w plugins results w' ->
  Forall (fun r =>
            (wantsUpdate r = true ->
             error r = None /\ hasUpdate r = Some true /\
             exists latest,
               latestVersion r = Some latest /\
               compareVersions (currentVersion r) latest = true)
            /\ (error r <> None -> wantsUpdate r = false))
         results.
Proof.
  induction 1 as [w | w p rest out results w' _ _ IH
                    | w p rest msg results w' _ _ IH];
    constructor; try exact IH.
  - unfold wantsUpdate, lookedUp. cbn [hasUpdate error latestVersion
                                       currentVersion].
    split; [|intros H; now contradiction H].
    intros H. split; [reflexivity|]. split; [now rewrite H|].
    now exists (trim out).
  - split; [discriminate | reflexivity].
Qed.

(** X12: of the results a check returns, the report of the session hands
    on to the updater exactly those whose [hasUpdate] is true, in their
    order.  Each of them has no error and carries a latest version that the
    comparator takes for an update of the current one; a result with an
    error, as a failed lookup leaves it, is never handed on. *)
Theorem report_collects_found_updates (host : Host) (path : string)
    (w : World) (results : list UpdateResult) (w1 : World)
    (pluginsToUpdate : list UpdateResult) (w0 : World) :
  checkPluginUpdates host path w = (Return results, w1) ->
  exists texts,
    report results pluginsToUpdate w0
      = (Return (pluginsToUpdate ++ filter wantsUpdate results)%list,
         record w0 (map EvLog texts)) /\
    Forall (fun r =>
              error r = None /\ hasUpdate r = Some true /\
              exists latest,
                latestVersion r = Some latest /\
                compareVersions (currentVersion r) latest = true)
           (filter wantsUpdate results) /\
    Forall (fun r => error r <> None -> In r (filter wantsUpdate results) -> False)
           results.
Proof.
  intros H.
  destruct (checkPluginUpdates_returned host _ _ _ _ H) as (output & C).
  pose proof (Checked_found_updates _ _ _ _ _ C) as F.
  destruct (report_logs results pluginsToUpdate w0) as (texts & E & _).
  exists texts. split; [|split].
  - rewrite E. now rewrite (Checked_eligible _ _ _ _ _ C).
  - apply Forall_forall. intros r Hr. apply filter_In in Hr.
    destruct Hr as [Hin Hw].
    exact (proj1 (proj1 (Forall_forall _ _) F r Hin) Hw).
  - apply Forall_forall. intros r Hin He Hr. apply filter_In in Hr.
    destruct Hr as [_ Hw].
    pose proof (proj2 (proj1 (Forall_forall _ _) F r Hin) He). congruence.
Qed.

Lemma report_collects_found_updates_witness :
  checkPluginUpdates (exampleHost true true "n") "/app" exampleWorld
  = (Return [ lookedUp {| id := "cordova-plugin-device"; version := "2.0.3" |}
                (String "2" (String "." (String "1" (String "." (String "0"
                   (String nl ""))))));
              lookupFailed {| id := "cordova-plugin-camera";
                              version := "6.0.0" |} ],
     snd (checkPluginUpdates (exampleHost true true "n") "/app" exampleWorld))
  /\ fst (report
            [ lookedUp {| id := "cordova-plugin-device"; version := "2.0.3" |}
                "2.1.0";
              lookupFailed {| id := "cordova-plugin-camera";
                              version := "6.0.0" |} ]
            [] exampleWorld)
     = Return [ lookedUp {| id := "cordova-plugin-device"; version := "2.0.3" |}
                  "2.1.0" ].
Proof.
  split; [reflexivity|].
  pose (found := [ lookedUp {| id := "cordova-plugin-device";
                               version := "2.0.3" |} "2.1.0";
                   lookupFailed {| id := "cordova-plugin-camera";
                                   version := "6.0.0" |} ]).
  destruct (report_collects_found_updates (exampleHost true true "n") "/app"
              exampleWorld found
              (snd (checkPluginUpdates (exampleHost true true "n") "/app"
                      exampleWorld))
              [] exampleWorld eq_refl) as (texts & E & _).
  change (fst (report found [] exampleWorld)
          = Return [ lookedUp {| id := "cordova-plugin-device";
                                 version := "2.0.3" |} "2.1.0" ]).
  rewrite E. reflexivity.
Defined.

(** X13: when no result has an update to offer, the session says that all
    plugins are up to date after the report, asks nothing, starts no other
    command, closes the prompt and ends normally. *)
Theorem all_up_to_date (host : Host) (w : World)
    (results : list UpdateResult) (w1 : World) :
  checkPluginUpdates host (targetPath host w) (started host w)
    = (Return results, w1) ->
  filter eligible results = [] ->
  exists texts,
    length texts = length results /\
    checkUpdates host w =
    (Return tt,
     record w1 (EvLog reportHeader :: map EvLog texts
                ++ [EvLog allUpToDate; EvClose])).
Proof.
  intros H F.
  destruct (checkUpdates_nothing_eligible host w results w1 H F)
    as (texts & L & E).
  exists texts. split; [exact L|].
  rewrite E, record_record. reflexivity.
Qed.

Lemma all_up_to_date_witness :
  checkPluginUpdates currentHost (targetPath currentHost exampleWorld)
    (started currentHost exampleWorld)
  = (Return [ lookedUp {| id := "cordova-plugin-device"; version := "2.0.3" |}
                "2.0.3" ],
     snd (checkPluginUpdates currentHost (targetPath currentHost exampleWorld)
            (started currentHost exampleWorld)))
  /\ filter eligible
       [ lookedUp {| id := "cordova-plugin-device"; version := "2.0.3" |}
           "2.0.3" ] = []
  /\ questions (trace (snd (checkUpdates currentHost exampleWorld))) = []
  /\ commands (trace (snd (checkUpdates currentHost exampleWorld)))
     = [ "cordova plugin list"; "npm view cordova-plugin-device version" ]
  /\ exitStatus (fst (checkUpdates currentHost exampleWorld)) = 0%Z.
Proof.
  split; [reflexivity|]. split; [reflexivity|].
  destruct (all_up_to_date currentHost exampleWorld _ _ eq_refl eq_refl)
    as (texts & L & E).
  rewrite E. cbn [fst snd exitStatus record trace].
  rewrite !questions_app, !commands_app.
  cbn [questions commands]. rewrite questions_app, commands_app.
  rewrite questions_map_EvLog, commands_map_EvLog.
  repeat split; vm_compute; reflexivity.
Defined.

(** X14: when the operator never answers "y" or "Y", the updater only
    asks its questions, one per plugin and in order: no remove and no add is
    started, and nothing is printed. *)
Theorem askEach_declined (host : Host) (pluginsToUpdate : list UpdateResult)
    (w : World) :
  (forall t q, answer host t q <> "y" /\ answer host t q <> "Y") ->
  askEach host pluginsToUpdate w =
  (Return tt,
   record w (map (fun r => EvQuestion (updateQuery r)) pluginsToUpdate)).
Proof.
  intros Hno. revert w.
  induction pluginsToUpdate as [|r rest IH]; intros w.
  - cbn. unfold record. cbn. rewrite app_nil_r. now destruct w.
  - cbn [askEach map]. cbv [bind question ret].
    change (String nl "Do you want to update " ++ plugin r
            ++ " from " ++ currentVersion r
            ++ " to " ++ showField (latestVersion r) ++ "? (y/n): ")
      with (updateQuery r).
    destruct (toLowerCase (answer host (trace w) (updateQuery r)) =? "y") eqn:Y.
    + apply toLowerCase_y in Y.
      destruct (Hno (trace w) (updateQuery r)) as [H1 H2]. tauto.
    + rewrite IH, record_record. reflexivity.
Qed.

Lemma askEach_declined_witness :
  (forall t q, answer (exampleHost true true "no") t q <> "y" /\
               answer (exampleHost true true "no") t q <> "Y") /\
  askEach (exampleHost true true "no")
    [ lookedUp {| id := "cordova-plugin-device"; version := "2.0.3" |} "2.1.0" ]
    exampleWorld
  = (Return tt,
     record exampleWorld
       [ EvQuestion
           (updateQuery
              (lookedUp {| id := "cordova-plugin-device"; version := "2.0.3" |}
                 "2.1.0")) ]).
Proof.
  assert (H : forall t q, answer (exampleHost true true "no") t q <> "y" /\
                          answer (exampleHost true true "no") t q <> "Y").
  { intros t q. split; discriminate. }
  split; [exact H|].
  exact (askEach_declined (exampleHost true true "no") _ exampleWorld H).
Defined.

(* ================================================================== *)
(** ** Version Comparator: the order on well-formed versions *)

Lemma compareVersions_versionOf (u v : string) (x y z x' y' z' : Z) :
  versionOf u x y z -> versionOf v x' y' z' ->
  compareVersions u v = tripleBefore x y z x' y' z'.
Proof.
  intros (a & b & c & -> & Ha & Hb & Hc & Hm)
         (a' & b' & c' & -> & Ha' & Hb' & Hc' & Hm').
  apply compareVersions_integers; try assumption. lia.
Qed.

Lemma tripleBefore_spec (x y z x' y' z' : Z) :
  tripleBefore x y z x' y' z' = true <->
  (x < x' \/ (x = x' /\ (y < y' \/ (y = y' /\ z < z'))))%Z.
Proof.
  unfold tripleBefore.
  rewrite !orb_true_iff, !andb_true_iff, !orb_true_iff, !andb_true_iff.
  rewrite !Z.ltb_lt, !Z.eqb_eq. tauto.
Qed.

(** X16: on well-formed versions the comparator is a strict total order:
    an update of an update is an update, and two versions neither of which
    is an update of the other have the same three numbers. *)
Theorem compareVersions_total_order (u v t : string)
    (x y z x' y' z' x'' y'' z'' : Z) :
  versionOf u x y z -> versionOf v x' y' z' -> versionOf t x'' y'' z'' ->
  (compareVersions u v = true -> compareVersions v t = true ->
   compareVersions u t = true)
  /\ (compareVersions u v = false -> compareVersions v u = false ->
      x = x' /\ y = y' /\ z = z').
Proof.
  intros Hu Hv Ht.
  rewrite (compareVersions_versionOf u v _ _ _ _ _ _ Hu Hv).
  rewrite (compareVersions_versionOf v t _ _ _ _ _ _ Hv Ht).
  rewrite (compareVersions_versionOf u t _ _ _ _ _ _ Hu Ht).
  rewrite (compareVersions_versionOf v u _ _ _ _ _ _ Hv Hu).
  split.
  - rewrite !tripleBefore_spec. lia.
  - intros H1 H2.
    assert (N1 : ~ (x < x' \/ (x = x' /\ (y < y' \/ (y = y' /\ z < z'))))%Z).
    { intros H. apply tripleBefore_spec in H. congruence. }
    assert (N2 : ~ (x' < x \/ (x' = x /\ (y' < y \/ (y' = y /\ z' < z))))%Z).
    { intros H. apply tripleBefore_spec in H. congruence. }
    lia.
Qed.

Lemma compareVersions_total_order_witness :
  versionOf "1.2.3" 1 2 3 /\ versionOf "1.10.0" 1 10 0 /\
  versionOf "2.0.0" 2 0 0 /\
  compareVersions "1.2.3" "2.0.0" = true.
Proof.
  assert (H1 : versionOf "1.2.3" 1 2 3).
  { exists "1", "2", "3". repeat split; reflexivity. }
  assert (H2 : versionOf "1.10.0" 1 10 0).
  { exists "1", "10", "0". repeat split; reflexivity. }
  assert (H3 : versionOf "2.0.0" 2 0 0).
  { exists "2", "0", "0". repeat split; reflexivity. }
  split; [exact H1|]. split; [exact H2|]. split; [exact H3|].
  apply (proj1 (compareVersions_total_order "1.2.3" "1.10.0" "2.0.0"
                  1 2 3 1 10 0 2 0 0 H1 H2 H3)); reflexivity.
Defined.

(** With a segment that is no number the comparator is no order: each of
    the first two comparisons reports an update, the third one does not. *)
Example compareVersions_not_transitive :
  compareVersions "1.x.0" "1.0.1" = true /\
  compareVersions "1.0.1" "1.1.0" = true /\
  compareVersions "1.x.0" "1.1.0" = false.
Proof. repeat split; vm_compute; reflexivity. Qed.
